(** * SSNTP roles, role OIDs and the host-wide identity store

    A shallow embedding of the role/certificate code and of the UUID
    store of [ssntp/ssntp.go]:

    - the role bitmask constants and the role OIDs,
    - the [roleOID] table with [getRoleFromOIDs] and [getOIDsFromRole],
    - [verifyRole] and [parseCertificate],
    - [newUUID] and [freeUUID] over a small model of the POSIX calls they
      make ([open], [read], [write], [flock], [close]),
    - the names of frame types and operands (the [String] methods) and
      roles as text (the methods [String] and [Set] of [Role]).

    Go's [uint32] and [int] are integers of [Z]; the only operations the
    embedded code applies to roles are [&] and [|], which cannot leave the
    32-bit range (see [getRoleFromOIDs_range]).  A Go result [(v, err)] is
    a pair whose second component is [None] for a [nil] error. *)

From Stdlib Require Import ZArith List Ascii String Strings.Byte HexString Lia Bool.
From stdpp Require Import base decidable option list gmap strings fin_maps.

Local Open Scope string_scope.
Local Open Scope list_scope.
Local Open Scope Z_scope.

(** ** Go values shared by the whole package *)

(** A Go [error]: an errno of package [syscall], or an error carrying a
    message ([fmt.Errorf], [errors.New], errors of the imported packages). *)
Inductive error : Type :=
  | Errno (code : Z)
  | ErrorString (msg : string).

(** How a Go call ends: it returns, it panics (index out of range, nil
    dereference), or it ends the process ([log.Fatalf]). *)
Inductive outcome (A : Type) : Type :=
  | Returned (a : A)
  | Panicked (why : string)
  | Exited (code : Z).
Arguments Returned {A} a.
Arguments Panicked {A} why.
Arguments Exited {A} code.

Definition nl : string := String (ascii_of_nat 10) EmptyString.

(** ** Roles *)

Definition UNKNOWN : Z := 0x0.
Definition SERVER : Z := 0x1.
Definition Controller : Z := 0x2.
Definition AGENT : Z := 0x4.
Definition SCHEDULER : Z := 0x8.
Definition NETAGENT : Z := 0x10.
Definition CNCIAGENT : Z := 0x20.

(** ** Role OIDs *)

(** [asn1.ObjectIdentifier] is [[]int]. *)
Definition ObjectIdentifier : Type := list Z.

Definition RoleAgentOID : ObjectIdentifier := [1; 3; 6; 1; 4; 1; 343; 8; 1].
Definition RoleSchedulerOID : ObjectIdentifier := [1; 3; 6; 1; 4; 1; 343; 8; 2].
Definition RoleControllerOID : ObjectIdentifier := [1; 3; 6; 1; 4; 1; 343; 8; 3].
Definition RoleNetAgentOID : ObjectIdentifier := [1; 3; 6; 1; 4; 1; 343; 8; 4].
Definition RoleServerOID : ObjectIdentifier := [1; 3; 6; 1; 4; 1; 343; 8; 5].
Definition RoleCNCIAgentOID : ObjectIdentifier := [1; 3; 6; 1; 4; 1; 343; 8; 6].

(** [ObjectIdentifier.Equal]: same length and the same component at every
    index. *)
Fixpoint Equal (oi other : ObjectIdentifier) : bool :=
  match oi, other with
  | [], [] => true
  | x :: oi', y :: other' => if x =? y then Equal oi' other' else false
  | _, _ => false
  end.

(** An element of the anonymous struct slice [roleOID]; the fields are
    [role] and [oid] in the source. *)
Record roleOIDEntry : Type := mkRoleOID {
  entry_role : Z;
  entry_oid : ObjectIdentifier
}.

Definition roleOID : list roleOIDEntry :=
  [ mkRoleOID AGENT RoleAgentOID;
    mkRoleOID SCHEDULER RoleSchedulerOID;
    mkRoleOID Controller RoleControllerOID;
    mkRoleOID NETAGENT RoleNetAgentOID;
    mkRoleOID SERVER RoleServerOID;
    mkRoleOID CNCIAGENT RoleCNCIAgentOID ].

(** The inner loop of [getRoleFromOIDs]: one pass over a table for one
    OID, or-ing in the role of every entry whose OID is [Equal] to it. *)
Definition matchRoles (table : list roleOIDEntry) (role : Z)
    (oid : ObjectIdentifier) : Z :=
  fold_left
    (fun role r => if Equal (entry_oid r) oid then Z.lor role (entry_role r) else role)
    table role.

Definition getRoleFromOIDs (oids : list ObjectIdentifier) : Z :=
  fold_left (matchRoles roleOID) oids UNKNOWN.

(** The loop of [getOIDsFromRole]: the OIDs of the entries whose role bits
    are all set in [role], in table order. *)
Definition selectOIDs (table : list roleOIDEntry) (role : Z)
    : list ObjectIdentifier :=
  fold_left
    (fun oids r =>
       if Z.land role (entry_role r) =? entry_role r
       then oids ++ [entry_oid r] else oids)
    table [].

Definition getOIDsFromRole (role : Z) : list ObjectIdentifier * option error :=
  let oids := selectOIDs roleOID role in
  if (length oids =? 0)%nat
  then ([], Some (ErrorString ("Unknown role " +:+ HexString.of_Z role)))
  else (oids, None).

(** ** Certificates and connections *)

(** The one field of [x509.Certificate] this code reads. *)
Record Certificate : Type := mkCertificate {
  UnknownExtKeyUsage : list ObjectIdentifier
}.

(** [tls.ConnectionState], reduced to the field read here. *)
Record ConnectionState : Type := mkConnectionState {
  PeerCertificates : list Certificate
}.

(** The dynamic type of the [conn interface{}] argument of [verifyRole]:
    a [*tls.Conn] or anything else. *)
Inductive Conn : Type :=
  | TLSConn (state : ConnectionState)
  | OtherConn.

Definition oidError : error :=
  ErrorString
    ("**** TEMPORARY WARNING ****" +:+ nl +:+
     "*** Wrong certificate or missing/mismatched role OID ***" +:+ nl +:+
     "In order to fix this, use the -role option when generating your certificates with the ciao-cert tool."
     +:+ nl).

(** [state.PeerCertificates[0]] panics on an empty slice. *)
Definition verifyRole (conn : Conn) (role : Z) : outcome (bool * option error) :=
  match conn with
  | TLSConn state =>
      match PeerCertificates state with
      | [] => Panicked "index out of range"
      | cert0 :: _ =>
          let certRole := getRoleFromOIDs (UnknownExtKeyUsage cert0) in
          if negb (Z.land certRole role =? role)
          then Returned (false, Some oidError)
          else Returned (true, None)
      end
  | OtherConn => Returned (false, Some oidError)
  end.

(** ** Parsing the endpoint certificate *)

Definition defaultCA : string := "/etc/pki/ciao/ca_cert.crt".
Definition defaultServerCert : string := "/etc/pki/ciao/server.pem".
Definition defaultClientCert : string := "/etc/pki/ciao/client.pem".

(** [Config], without [ForwardRules], [Log] and [Trace], whose types
    are declared elsewhere; [UUID_] is the field [UUID]. *)
Record Config : Type := mkConfig {
  UUID_ : string;
  URI : string;
  Role : Z;
  CAcert : string;
  Cert : string;
  Transport : string;
  RoleVerification : bool;
  Port : Z
}.

(** [pem.Block], reduced to its payload. *)
Record Block : Type := mkBlock {
  Bytes : list byte
}.

Section ParseCertificate.

(** The three calls into the Go standard library; [pem.Decode] returns a
    nil block ([None]) when the input holds no PEM data. *)
Variable ioutil_ReadFile : string -> list byte * option error.
Variable pem_Decode : list byte -> option Block * list byte.
Variable x509_ParseCertificates : list byte -> list Certificate * option error.

(** On a nil block the source prints a message and goes on to read
    [certBlock.Bytes]; [cert[0]] is read without a length check. *)
Definition parseCertificate (config : Config) : outcome (Z * option error) :=
  let '(certPEM, err) := ioutil_ReadFile (Cert config) in
  match err with
  | Some _ => Exited 1
  | None =>
      let '(certBlock, _) := pem_Decode certPEM in
      match certBlock with
      | None => Panicked "nil pointer dereference"
      | Some block =>
          let '(cert, err) := x509_ParseCertificates (Bytes block) in
          match err with
          | Some e => Returned (0, Some e)
          | None =>
              match cert with
              | [] => Panicked "index out of range"
              | cert0 :: _ =>
                  let role := getRoleFromOIDs (UnknownExtKeyUsage cert0) in
                  if role =? UNKNOWN
                  then Returned (role, Some (ErrorString "Could not find a SSNTP role"))
                  else Returned (role, None)
              end
          end
      end
  end.

End ParseCertificate.

(** ** The system calls of the identity store *)

Definition uuidPrefix : string := "/var/lib/ciao/local/uuid-storage/role".
Definition uuidLockPrefix : string := "/tmp/lock/ciao".
Definition nullUUID : string := "00000000-0000-0000-0000-000000000000".

Definition EBADF : Z := 9.
Definition EWOULDBLOCK : Z := 11.

(** An open file description: the file it refers to, its offset, and
    whether an advisory [flock] is held through it.  This code never
    duplicates a descriptor, so each descriptor has its own description. *)
Record OpenFile : Type := mkOpenFile {
  of_path : string;
  of_offset : nat;
  of_flock : bool
}.

(** The two [flock] operations the source uses. *)
Inductive flockHow : Type :=
  | LOCK_EX_LOCK_NB
  | LOCK_UN.

Section IdentityStore.

(** Package [github.com/docker/distribution/uuid]: the type and the two
    conversions; [uuid.Parse] returns a value together with its error. *)
Context {UUID : Type}.
Variable uuid_Parse : string -> UUID * option error.
Variable uuid_String : UUID -> string.

(** The surroundings of the process, fixed for the duration of a call:
    the files locked through descriptions of other processes, the
    calls that fail (directories are not modelled beyond that), and
    the source of randomness behind [uuid.Generate]. *)
Record Host : Type := mkHost {
  foreign_flocks : gset string;
  mkdir_fault : string -> option error;
  open_fault : string -> option error;
  read_fault : string -> option error;
  write_fault : string -> option error;
  entropy : nat -> UUID
}.

(** What a call can change: regular files by path, the descriptor
    table of the process, and how many random UUIDs were drawn. *)
Record World : Type := mkWorld {
  host : Host;
  files : gmap string (list byte);
  fdtable : gmap Z OpenFile;
  drawn : nat
}.

Definition with_files (f : gmap string (list byte)) (w : World) : World :=
  mkWorld (host w) f (fdtable w) (drawn w).

Definition with_fdtable (t : gmap Z OpenFile) (w : World) : World :=
  mkWorld (host w) (files w) t (drawn w).

Definition with_drawn (n : nat) (w : World) : World :=
  mkWorld (host w) (files w) (fdtable w) n.

(** POSIX hands out the lowest descriptor that is not open. *)
Fixpoint lowest_free_from (t : gmap Z OpenFile) (fuel : nat) (fd : Z) : Z :=
  match fuel with
  | O => fd
  | S fuel' =>
      match t !! fd with
      | None => fd
      | Some _ => lowest_free_from t fuel' (fd + 1)
      end
  end.

Definition lowest_free (t : gmap Z OpenFile) : Z :=
  lowest_free_from t (size t) 0.

Definition uuid_Generate (w : World) : UUID * World :=
  (entropy (host w) (drawn w), with_drawn (S (drawn w)) w).

Definition os_MkdirAll (path : string) (w : World) : option error * World :=
  (mkdir_fault (host w) path, w).

(** [O_CREAT]: a missing file is created empty. *)
Definition create_if_missing (path : string) (fs : gmap string (list byte))
    : gmap string (list byte) :=
  match fs !! path with
  | Some _ => fs
  | None => <[path := []]> fs
  end.

(** [syscall.Open] with [O_CREAT]. *)
Definition syscall_Open (path : string) (w : World) : (Z * option error) * World :=
  match open_fault (host w) path with
  | Some e => ((-1, Some e), w)
  | None =>
      let fd := lowest_free (fdtable w) in
      ((fd, None),
       with_fdtable (<[fd := mkOpenFile path 0 false]> (fdtable w))
         (with_files (create_if_missing path (files w)) w))
  end.

Definition syscall_Close (fd : Z) (w : World) : option error * World :=
  match fdtable w !! fd with
  | None => (Some (Errno EBADF), w)
  | Some _ => (None, with_fdtable (delete fd (fdtable w)) w)
  end.

(** Is [path] locked through a description other than that of [fd]? *)
Definition flock_conflict (w : World) (fd : Z) (path : string) : bool :=
  bool_decide (path ∈ foreign_flocks (host w))
  || existsb
       (fun e : Z * OpenFile =>
          negb (fst e =? fd) && bool_decide (of_path (snd e) = path)
          && of_flock (snd e))
       (map_to_list (fdtable w)).

Definition syscall_Flock (fd : Z) (how : flockHow) (w : World)
    : option error * World :=
  match fdtable w !! fd with
  | None => (Some (Errno EBADF), w)
  | Some d =>
      match how with
      | LOCK_EX_LOCK_NB =>
          if of_flock d then (None, w)
          else if flock_conflict w fd (of_path d)
          then (Some (Errno EWOULDBLOCK), w)
          else (None,
                with_fdtable
                  (<[fd := mkOpenFile (of_path d) (of_offset d) true]> (fdtable w)) w)
      | LOCK_UN =>
          (None,
           with_fdtable
             (<[fd := mkOpenFile (of_path d) (of_offset d) false]> (fdtable w)) w)
      end
  end.

(** [syscall.Read fd p]: up to [length p] bytes from the offset on,
    stored at the front of [p]; the offset moves past them. *)
Definition syscall_Read (fd : Z) (p : list byte) (w : World)
    : (Z * list byte * option error) * World :=
  match fdtable w !! fd with
  | None => ((-1, p, Some (Errno EBADF)), w)
  | Some d =>
      match read_fault (host w) (of_path d) with
      | Some e => ((-1, p, Some e), w)
      | None =>
          let content := default [] (files w !! of_path d) in
          let data := take (length p) (drop (of_offset d) content) in
          ((Z.of_nat (length data), data ++ drop (length data) p, None),
           with_fdtable
             (<[fd := mkOpenFile (of_path d) (of_offset d + length data) (of_flock d)]>
                (fdtable w)) w)
      end
  end.

(** [syscall.Write fd p]: [p] replaces what the file holds from the
    offset on (a gap before the offset reads as zero bytes). *)
Definition syscall_Write (fd : Z) (p : list byte) (w : World)
    : (Z * option error) * World :=
  match fdtable w !! fd with
  | None => ((-1, Some (Errno EBADF)), w)
  | Some d =>
      match write_fault (host w) (of_path d) with
      | Some e => ((-1, Some e), w)
      | None =>
          let content := default [] (files w !! of_path d) in
          let off := of_offset d in
          let content' :=
            take off content ++ replicate (off - length content) x00
            ++ p ++ drop (off + length p) content in
          ((Z.of_nat (length p), None),
           with_fdtable
             (<[fd := mkOpenFile (of_path d) (off + length p) (of_flock d)]>
                (fdtable w))
             (with_files (<[of_path d := content']> (files w)) w))
      end
  end.

(** ** The identity store *)

Record lockedUUID : Type := mkLockedUUID {
  lockFd : Z;
  uuid : UUID
}.

(** [fmt.Sprintf] with the formats [%s/%s/0x%x] and [%s/%s-role-0x%x]. *)
Definition uuidFilePath (prefix : string) (role : Z) : string :=
  uuidPrefix +:+ "/" +:+ prefix +:+ "/" +:+ HexString.of_Z role.

Definition uuidLockFilePath (prefix : string) (role : Z) : string :=
  uuidLockPrefix +:+ "/" +:+ prefix +:+ "-role-" +:+ HexString.of_Z role.

(** The part of [newUUID] that runs once the lock is taken: read the
    UUID file, then write a new UUID or parse the stored one. *)
Definition readOrCreateUUID (nUUID : lockedUUID) (fd lockFd : Z) (w : World)
    : (lockedUUID * option error) * World :=
  let uuidArray := replicate 36 x00 in
  let '((n, uuidArray, err), w) := syscall_Read fd uuidArray w in
  match err with
  | Some e =>
      let '(_, w) := syscall_Close lockFd w in
      ((nUUID, Some e), w)
  | None =>
      if (n =? 0) || negb (n =? 36) then
        let '(newUUID, w) := uuid_Generate w in
        let '((_, err), w) :=
          syscall_Write fd (list_byte_of_string (uuid_String newUUID)) w in
        match err with
        | Some e =>
            let '(_, w) := syscall_Close lockFd w in
            ((nUUID, Some e), w)
        | None => ((mkLockedUUID lockFd newUUID, None), w)
        end
      else if n =? 36 then
        let '(newUUID, err) := uuid_Parse (string_of_list_byte (take 36 uuidArray)) in
        match err with
        | Some e =>
            let '(_, w) := syscall_Close lockFd w in
            ((nUUID, Some e), w)
        | None => ((mkLockedUUID lockFd newUUID, None), w)
        end
      else ((nUUID, err), w)
  end.

(** The part of [newUUID] that runs under [defer syscall.Close(fd)]. *)
Definition lockAndRead (nUUID randomUUID : lockedUUID) (uuidLockFile : string)
    (fd : Z) (w : World) : (lockedUUID * option error) * World :=
  let '((lockFd, err), w) := syscall_Open uuidLockFile w in
  match err with
  | Some e => ((nUUID, Some e), w)
  | None =>
      let '(err, w) := syscall_Flock lockFd LOCK_EX_LOCK_NB w in
      match err with
      | Some _ =>
          let '(_, w) := syscall_Close lockFd w in
          ((randomUUID, None), w)
      | None => readOrCreateUUID nUUID fd lockFd w
      end
  end.

(** A failure of the first [os.MkdirAll] is printed and otherwise
    ignored; the messages printed on the way are not modelled. *)
Definition newUUID (prefix : string) (role : Z) (w : World)
    : (lockedUUID * option error) * World :=
  let uuidFile := uuidFilePath prefix role in
  let uuidLockFile := uuidLockFilePath prefix role in
  let nUUID := mkLockedUUID (-1) (fst (uuid_Parse nullUUID)) in
  let '(g, w) := uuid_Generate w in
  let randomUUID := mkLockedUUID (-1) g in
  let '(_, w) := os_MkdirAll (uuidPrefix +:+ "/" +:+ prefix) w in
  let '(err, w) := os_MkdirAll uuidLockPrefix w in
  match err with
  | Some e => ((nUUID, Some e), w)
  | None =>
      let '((fd, err), w) := syscall_Open uuidFile w in
      match err with
      | Some e => ((nUUID, Some e), w)
      | None =>
          let '(res, w) := lockAndRead nUUID randomUUID uuidLockFile fd w in
          let '(_, w) := syscall_Close fd w in
          (res, w)
      end
  end.

Definition freeUUID (uuid : lockedUUID) (w : World) : option error * World :=
  if lockFd uuid =? -1 then (None, w)
  else
    let '(err, w) := syscall_Flock (lockFd uuid) LOCK_UN w in
    match err with
    | Some e => (Some e, w)
    | None => (None, w)
    end.

End IdentityStore.

Arguments Host : clear implicits.
Arguments World : clear implicits.
Arguments lockedUUID : clear implicits.

(** ** A stand-in for the UUID package, to run the store on examples

    Sixteen bytes printed as [8-4-4-4-12] hexadecimal digits.  The
    theorems below hold for every [uuid_Parse] and [uuid_String]; this
    instance only serves to evaluate the code on concrete hosts. *)
Module HexUUID.

Definition UUID : Type := list byte.

Definition hexval (c : ascii) : option N :=
  let n := N_of_ascii c in
  if ((48 <=? n) && (n <=? 57))%N then Some (n - 48)%N
  else if ((97 <=? n) && (n <=? 102))%N then Some (n - 87)%N
  else if ((65 <=? n) && (n <=? 70))%N then Some (n - 55)%N
  else None.

Definition hexdigit (n : N) : ascii :=
  if (n <? 10)%N then ascii_of_N (48 + n) else ascii_of_N (87 + n).

Fixpoint decode_pairs (cs : list ascii) : option (list byte) :=
  match cs with
  | [] => Some []
  | a :: b :: rest =>
      match hexval a, hexval b, decode_pairs rest with
      | Some h, Some l, Some bs =>
          match Byte.of_N (16 * h + l) with
          | Some x => Some (x :: bs)
          | None => None
          end
      | _, _, _ => None
      end
  | _ => None
  end.

Definition encode_pairs (bs : list byte) : list ascii :=
  flat_map
    (fun b => [hexdigit (Byte.to_N b / 16); hexdigit (Byte.to_N b mod 16)]) bs.

Definition dash : ascii := ascii_of_N 45.

Definition ErrUUIDInvalid : error := ErrorString "invalid uuid".

Definition Parse (s : string) : UUID * option error :=
  let cs := list_ascii_of_string s in
  if negb (length cs =? 36)%nat then (replicate 16 x00, Some ErrUUIDInvalid)
  else
    let dashes :=
      forallb (fun i => bool_decide (cs !! i = Some dash)) [8; 13; 18; 23]%nat in
    let digits :=
      take 8 cs ++ take 4 (drop 9 cs) ++ take 4 (drop 14 cs)
      ++ take 4 (drop 19 cs) ++ drop 24 cs in
    match dashes, decode_pairs digits with
    | true, Some bs => (bs, None)
    | _, _ => (replicate 16 x00, Some ErrUUIDInvalid)
    end.

Definition String_ (u : UUID) : string :=
  string_of_list_ascii
    (encode_pairs (take 4 u) ++ [dash] ++ encode_pairs (take 2 (drop 4 u))
     ++ [dash] ++ encode_pairs (take 2 (drop 6 u)) ++ [dash]
     ++ encode_pairs (take 2 (drop 8 u)) ++ [dash] ++ encode_pairs (drop 10 u)).

(** A host on which no call fails, with the given foreign locks; the
    [n]-th random UUID is sixteen copies of the byte [n + 1]. *)
Definition quiet (locked : gset string) : Host UUID :=
  mkHost locked (fun _ => None) (fun _ => None) (fun _ => None) (fun _ => None)
         (fun n => replicate 16 (default x00 (Byte.of_N (N.of_nat (S n))))).

(** A process on a quiet host, with given files and no open descriptor. *)
Definition boot (fs : gmap string (list byte)) (locked : gset string)
    : World UUID :=
  mkWorld (quiet locked) fs ∅ 0.

Definition acquire := newUUID Parse String_.

End HexUUID.

(** ** The statements of the specification, in its own words *)

(** The role bits the specification defines. *)
Definition definedRoles : list Z :=
  [SERVER; Controller; AGENT; SCHEDULER; NETAGENT; CNCIAGENT].

(** A bitmask given as the union of a list of role bits. *)
Definition unionOfRoles (rs : list Z) : Z := foldr Z.lor UNKNOWN rs.

(** The common prefix [1.3.6.1.4.1.343.8] of the role OIDs, and the
    specification's table of role bit and last arc. *)
Definition roleOIDPrefix : ObjectIdentifier := [1; 3; 6; 1; 4; 1; 343; 8].

Definition specRoleTable : list (Z * Z) :=
  [(0x4, 1); (0x8, 2); (0x2, 3); (0x10, 4); (0x1, 5); (0x20, 6)].

(** The OIDs of the role table. *)
Definition knownOIDs : list ObjectIdentifier := entry_oid <$> roleOID.

(** The bitwise union of the role bits whose OID occurs in [oids]. *)
Definition roleUnion (oids : list ObjectIdentifier) : Z :=
  foldr Z.lor UNKNOWN
    (entry_role <$> filter (fun r => entry_oid r ∈ oids) roleOID).

(** ** Who holds a lock *)

(** The advisory lock on [path] is held by another process, or through a
    descriptor this process has open. *)
Definition lockedElsewhere {UUID : Type} (w : World UUID) (path : string) : Prop :=
  path ∈ foreign_flocks (host w)
  \/ exists k d, fdtable w !! k = Some d /\ of_path d = path /\ of_flock d = true.

(** ** Frame types and operands, and their names *)

(** [Type], [Command], [Status], [Event] and [Error] are [uint8]
    enumerations numbered by [iota]. *)
Definition COMMAND : Z := 0.
Definition STATUS : Z := 1.
Definition ERROR : Z := 2.
Definition EVENT : Z := 3.

Definition CONNECT : Z := 0.
Definition START : Z := 1.
Definition STOP : Z := 2.
Definition STATS : Z := 3.
Definition EVACUATE : Z := 4.
Definition DELETE : Z := 5.
Definition RESTART : Z := 6.
Definition AssignPublicIP : Z := 7.
Definition ReleasePublicIP : Z := 8.
Definition CONFIGURE : Z := 9.

Definition CONNECTED : Z := 0.
Definition READY : Z := 1.
Definition FULL : Z := 2.
Definition OFFLINE : Z := 3.
Definition MAINTENANCE : Z := 4.

Definition TenantAdded : Z := 0.
Definition TenantRemoved : Z := 1.
Definition InstanceDeleted : Z := 2.
Definition ConcentratorInstanceAdded : Z := 3.
Definition PublicIPAssigned : Z := 4.
Definition TraceReport : Z := 5.
Definition NodeConnected : Z := 6.
Definition NodeDisconnected : Z := 7.

Definition InvalidFrameType : Z := 0.
Definition StartFailure : Z := 1.
Definition StopFailure : Z := 2.
Definition ConnectionFailure : Z := 3.
Definition RestartFailure : Z := 4.
Definition DeleteFailure : Z := 5.
Definition ConnectionAborted : Z := 6.
Definition InvalidConfiguration : Z := 7.

(** The [String] methods: a [switch] on the value, in the order of the
    source, with the empty string after it. *)
Definition Type_String (t : Z) : string :=
  if t =? COMMAND then "COMMAND"
  else if t =? STATUS then "STATUS"
  else if t =? EVENT then "EVENT"
  else if t =? ERROR then "ERROR"
  else "".

Definition Command_String (command : Z) : string :=
  if command =? CONNECT then "CONNECT"
  else if command =? START then "START"
  else if command =? STOP then "STOP"
  else if command =? STATS then "STATISTICS"
  else if command =? EVACUATE then "EVACUATE"
  else if command =? DELETE then "DELETE"
  else if command =? RESTART then "RESTART"
  else if command =? AssignPublicIP then "Assign public IP"
  else if command =? ReleasePublicIP then "Release public IP"
  else if command =? CONFIGURE then "CONFIGURE"
  else "".

Definition Status_String (status : Z) : string :=
  if status =? CONNECTED then "CONNECTED"
  else if status =? READY then "READY"
  else if status =? FULL then "FULL"
  else if status =? OFFLINE then "OFFLINE"
  else if status =? MAINTENANCE then "MAINTENANCE"
  else "".

Definition Event_String (status : Z) : string :=
  if status =? TenantAdded then "Tenant Added"
  else if status =? TenantRemoved then "Tenant Removed"
  else if status =? InstanceDeleted then "Instance Deleted"
  else if status =? ConcentratorInstanceAdded then "Network Concentrator Instance Added"
  else if status =? PublicIPAssigned then "Public IP Assigned"
  else if status =? TraceReport then "Trace Report"
  else if status =? NodeConnected then "Node Connected"
  else if status =? NodeDisconnected then "Node Disconnected"
  else "".

Definition Error_String (e : Z) : string :=
  if e =? InvalidFrameType then "Invalid SSNTP frame type"
  else if e =? StartFailure then "Could not start instance"
  else if e =? StopFailure then "Could not stop instance"
  else if e =? ConnectionFailure then "SSNTP Connection failed"
  else if e =? RestartFailure then "Could not restart instance"
  else if e =? DeleteFailure then "Could not delete instance"
  else if e =? ConnectionAborted then "SSNTP Connection aborted"
  else if e =? InvalidConfiguration then "Cluster configuration is invalid"
  else "".

(** ** Roles as text *)

(** the method [String] of [*Role]: one name per role bit that is set, in the order of
    the tests of the source. *)
Definition Role_String (role : Z) : string :=
  let roleString := "" in
  let roleString :=
    if Z.land role SERVER =? SERVER then roleString +:+ "Server-" else roleString in
  let roleString :=
    if Z.land role Controller =? Controller
    then roleString +:+ "Controller-" else roleString in
  let roleString :=
    if Z.land role AGENT =? AGENT then roleString +:+ "CNAgent-" else roleString in
  let roleString :=
    if Z.land role SCHEDULER =? SCHEDULER
    then roleString +:+ "Scheduler-" else roleString in
  let roleString :=
    if Z.land role NETAGENT =? NETAGENT
    then roleString +:+ "NetworkingAgent-" else roleString in
  let roleString :=
    if Z.land role CNCIAGENT =? CNCIAGENT
    then roleString +:+ "CNCIAgent-" else roleString in
  roleString.

(** [strings.Split] for a separator of one byte, the only use the source
    makes of it: the pieces between the separators, one more than there
    are separators. *)
Fixpoint strings_Split (s : string) (sep : ascii) : list string :=
  match s with
  | EmptyString => [EmptyString]
  | String c rest =>
      if Ascii.eqb c sep then EmptyString :: strings_Split rest sep
      else
        match strings_Split rest sep with
        | [] => [String c EmptyString]
        | piece :: pieces => String c piece :: pieces
        end
  end.

Definition comma : ascii := ascii_of_nat 44.

(** The loop of the method [Set] of [*Role] over the pieces: the role is updated in
    place, so what was or-ed in before an unknown name stays. *)
Fixpoint Role_Set_loop (pieces : list string) (role : Z) : option error * Z :=
  match pieces with
  | [] => (None, role)
  | r :: pieces' =>
      if String.eqb r "unknown" then Role_Set_loop pieces' (Z.lor role UNKNOWN)
      else if String.eqb r "server" then Role_Set_loop pieces' (Z.lor role SERVER)
      else if String.eqb r "controller" then Role_Set_loop pieces' (Z.lor role Controller)
      else if String.eqb r "agent" then Role_Set_loop pieces' (Z.lor role AGENT)
      else if String.eqb r "netagent" then Role_Set_loop pieces' (Z.lor role NETAGENT)
      else if String.eqb r "scheduler" then Role_Set_loop pieces' (Z.lor role SCHEDULER)
      else if String.eqb r "cnciagent" then Role_Set_loop pieces' (Z.lor role CNCIAGENT)
      else (Some (ErrorString "Unknown role"), role)
  end.

(** The method [Set] of [*Role]: the error and the role left behind the pointer. *)
Definition Role_Set (value : string) (role : Z) : option error * Z :=
  Role_Set_loop (strings_Split value comma) role.

(** ** Reading the text functions declaratively *)

(** The names of an enumeration by value; [names_lookup] is the empty
    string outside the list. *)
Definition TypeNames : list string := ["COMMAND"; "STATUS"; "ERROR"; "EVENT"].

Definition CommandNames : list string :=
  ["CONNECT"; "START"; "STOP"; "STATISTICS"; "EVACUATE"; "DELETE"; "RESTART";
   "Assign public IP"; "Release public IP"; "CONFIGURE"].

Definition StatusNames : list string :=
  ["CONNECTED"; "READY"; "FULL"; "OFFLINE"; "MAINTENANCE"].

Definition EventNames : list string :=
  ["Tenant Added"; "Tenant Removed"; "Instance Deleted";
   "Network Concentrator Instance Added"; "Public IP Assigned"; "Trace Report";
   "Node Connected"; "Node Disconnected"].

Definition ErrorNames : list string :=
  ["Invalid SSNTP frame type"; "Could not start instance"; "Could not stop instance";
   "SSNTP Connection failed"; "Could not restart instance";
   "Could not delete instance"; "SSNTP Connection aborted";
   "Cluster configuration is invalid"].

Definition names_lookup (names : list string) (v : Z) : string :=
  if v <? 0 then "" else nth (Z.to_nat v) names "".

(** The role a name stands for in the method [Set] of [*Role]. *)
Definition roleOfName (name : string) : option Z :=
  if String.eqb name "unknown" then Some UNKNOWN
  else if String.eqb name "server" then Some SERVER
  else if String.eqb name "controller" then Some Controller
  else if String.eqb name "agent" then Some AGENT
  else if String.eqb name "netagent" then Some NETAGENT
  else if String.eqb name "scheduler" then Some SCHEDULER
  else if String.eqb name "cnciagent" then Some CNCIAGENT
  else None.

(** The roles of the pieces up to the first one that names no role. *)
Fixpoint knownPrefix (pieces : list string) : list Z :=
  match pieces with
  | [] => []
  | r :: pieces' =>
      match roleOfName r with
      | Some b => b :: knownPrefix pieces'
      | None => []
      end
  end.

(** [strings.Join] with a one-byte separator. *)
Fixpoint join_with (sep : ascii) (pieces : list string) : string :=
  match pieces with
  | [] => ""
  | [piece] => piece
  | piece :: pieces' => piece +:+ String sep (join_with sep pieces')
  end.

(** * Properties *)

(** ** Object identifiers and the role table *)

Lemma Equal_true_iff (oi other : ObjectIdentifier) :
  Equal oi other = true <-> oi = other.
Proof.
  revert other. induction oi as [|x oi IH]; intros [|y other]; simpl;
    try (split; [discriminate | congruence]); [tauto|].
  destruct (Z.eqb_spec x y) as [->|Hne].
  - rewrite IH. split; congruence.
  - split; [discriminate | congruence].
Qed.

Lemma Equal_refl (oi : ObjectIdentifier) : Equal oi oi = true.
Proof. by apply Equal_true_iff. Qed.

Section TableLoops.

Variable table : list roleOIDEntry.

(** Bit [i] after the inner loop: it was set before, or an entry with
    this OID has it. *)
Lemma matchRoles_testbit (role : Z) (oid : ObjectIdentifier) (i : Z) :
  Z.testbit (matchRoles table role oid) i
  = Z.testbit role i
    || existsb (fun r => Equal (entry_oid r) oid && Z.testbit (entry_role r) i) table.
Proof.
  unfold matchRoles. revert role.
  induction table as [|r t IH]; intros role; simpl.
  - by rewrite orb_false_r.
  - rewrite IH. destruct (Equal (entry_oid r) oid); simpl.
    + by rewrite Z.lor_spec, orb_assoc.
    + done.
Qed.

Lemma fold_matchRoles_testbit (oids : list ObjectIdentifier) (role i : Z) :
  Z.testbit (fold_left (matchRoles table) oids role) i
  = Z.testbit role i
    || existsb
         (fun oid =>
            existsb (fun r => Equal (entry_oid r) oid && Z.testbit (entry_role r) i)
                    table)
         oids.
Proof.
  revert role. induction oids as [|oid oids IH]; intros role; simpl.
  - by rewrite orb_false_r.
  - by rewrite IH, matchRoles_testbit, orb_assoc.
Qed.

(** Bit [i] of the union of the roles of the entries selected by [P]. *)
Lemma union_filter_testbit (P : roleOIDEntry -> Prop)
    `{!forall r, Decision (P r)} (i : Z) :
  Z.testbit (foldr Z.lor UNKNOWN (entry_role <$> filter P table)) i
  = existsb (fun r => bool_decide (P r) && Z.testbit (entry_role r) i) table.
Proof.
  induction table as [|r t IH]; simpl.
  - apply Z.testbit_0_l.
  - rewrite filter_cons. destruct (decide (P r)) as [HP|HP].
    + rewrite bool_decide_eq_true_2 by done. rewrite fmap_cons. simpl.
      by rewrite Z.lor_spec, IH.
    + rewrite bool_decide_eq_false_2 by done. simpl. apply IH.
Qed.

(** The selection loop of [getOIDsFromRole] is a filter followed by a
    projection. *)
Lemma selectOIDs_from (role : Z) (acc : list ObjectIdentifier) :
  fold_left
    (fun oids r =>
       if Z.land role (entry_role r) =? entry_role r
       then oids ++ [entry_oid r] else oids)
    table acc
  = acc ++ (entry_oid <$>
              filter (fun r => Z.land role (entry_role r) = entry_role r) table).
Proof.
  revert acc. induction table as [|r t IH]; intros acc; simpl.
  - by rewrite app_nil_r.
  - rewrite filter_cons, IH.
    destruct (Z.eqb_spec (Z.land role (entry_role r)) (entry_role r));
      destruct (decide _); try done.
    by rewrite <- app_assoc.
Qed.

End TableLoops.

Lemma selectOIDs_filter (table : list roleOIDEntry) (role : Z) :
  selectOIDs table role
  = entry_oid <$> filter (fun r => Z.land role (entry_role r) = entry_role r) table.
Proof. unfold selectOIDs. by rewrite selectOIDs_from. Qed.

(** Both loops of [getRoleFromOIDs] as one test per bit. *)
Lemma getRoleFromOIDs_testbit (oids : list ObjectIdentifier) (i : Z) :
  Z.testbit (getRoleFromOIDs oids) i
  = existsb
      (fun r => bool_decide (entry_oid r ∈ oids) && Z.testbit (entry_role r) i)
      roleOID.
Proof.
  unfold getRoleFromOIDs. rewrite fold_matchRoles_testbit.
  unfold UNKNOWN at 1. rewrite Z.testbit_0_l, orb_false_l.
  apply eq_true_iff_eq. rewrite !existsb_exists. split.
  - intros (oid & Hin & Hex). apply existsb_exists in Hex as (r & Hr & Hb).
    apply andb_true_iff in Hb as [He Hb]. apply Equal_true_iff in He.
    exists r. split; [done|]. apply andb_true_iff. split; [|done].
    apply bool_decide_eq_true. rewrite He. by apply list_elem_of_In.
  - intros (r & Hr & Hb). apply andb_true_iff in Hb as [He Hb].
    apply bool_decide_eq_true in He. exists (entry_oid r).
    split; [by apply list_elem_of_In|]. apply existsb_exists.
    exists r. split; [done|]. by rewrite Equal_refl.
Qed.

Lemma getRoleFromOIDs_roleUnion (oids : list ObjectIdentifier) :
  getRoleFromOIDs oids = roleUnion oids.
Proof.
  apply Z.bits_inj. intros i. unfold roleUnion.
  by rewrite getRoleFromOIDs_testbit, union_filter_testbit.
Qed.

(** The result depends on [oids] only through which table OIDs occur. *)
Lemma getRoleFromOIDs_ext (oids1 oids2 : list ObjectIdentifier) :
  (forall oid, oid ∈ knownOIDs -> oid ∈ oids1 <-> oid ∈ oids2) ->
  getRoleFromOIDs oids1 = getRoleFromOIDs oids2.
Proof.
  intros Hext. apply Z.bits_inj. intros i. rewrite !getRoleFromOIDs_testbit.
  unfold knownOIDs in Hext.
  induction roleOID as [|r t IH]; simpl; [done|].
  rewrite IH.
  - f_equal. f_equal. apply bool_decide_ext, Hext. simpl. left.
  - intros oid Hin. apply Hext. simpl. by right.
Qed.

Lemma roleOID_roles_nonzero : Forall (fun r => entry_role r <> UNKNOWN) roleOID.
Proof. repeat constructor; discriminate. Qed.

Lemma roleOID_roles_low : Forall (fun r => Z.land (entry_role r) 0x3f = entry_role r) roleOID.
Proof. repeat constructor. Qed.

Lemma union_filter_low (P : roleOIDEntry -> Prop) `{!forall r, Decision (P r)}
    (table : list roleOIDEntry) :
  Forall (fun r => Z.land (entry_role r) 0x3f = entry_role r) table ->
  Z.land (foldr Z.lor UNKNOWN (entry_role <$> filter P table)) 0x3f
  = foldr Z.lor UNKNOWN (entry_role <$> filter P table).
Proof.
  induction 1 as [|r t Hr Ht IH]; [done|].
  rewrite filter_cons. destruct (decide (P r)); [|done].
  rewrite fmap_cons. cbn [foldr].
  by rewrite Z.land_lor_distr_l, Hr, IH.
Qed.

(** Only the six role bits can be set in a certified role. *)
Lemma getRoleFromOIDs_low (oids : list ObjectIdentifier) :
  Z.land (getRoleFromOIDs oids) 0x3f = getRoleFromOIDs oids.
Proof.
  rewrite getRoleFromOIDs_roleUnion. apply union_filter_low, roleOID_roles_low.
Qed.

Lemma getRoleFromOIDs_range (oids : list ObjectIdentifier) :
  0 <= getRoleFromOIDs oids < 2 ^ 32.
Proof.
  rewrite <- getRoleFromOIDs_low.
  change 0x3f with (Z.ones 6). rewrite Z.land_ones by lia.
  pose proof (Z.mod_pos_bound (getRoleFromOIDs oids) (2 ^ 6)). lia.
Qed.

(** ** From OIDs to roles *)

Lemma getRoleFromOIDs_unknown_iff (oids : list ObjectIdentifier) :
  getRoleFromOIDs oids = UNKNOWN <-> Forall (fun oid => oid ∉ knownOIDs) oids.
Proof.
  split.
  - intros Hzero. apply Forall_forall. intros oid Hin Hknown.
    apply list_elem_of_fmap in Hknown as (r & -> & Hr).
    pose proof roleOID_roles_nonzero as Hnz.
    rewrite Forall_forall in Hnz. apply (Hnz r Hr).
    apply Z.bits_inj_0. intros i.
    assert (Hbit : Z.testbit (getRoleFromOIDs oids) i = false)
      by (rewrite Hzero; apply Z.testbit_0_l).
    rewrite getRoleFromOIDs_testbit in Hbit.
    destruct (Z.testbit (entry_role r) i) eqn:Hri; [|done].
    assert (Hex : existsb
              (fun r => bool_decide (entry_oid r ∈ oids) && Z.testbit (entry_role r) i)
              roleOID = true); [|congruence].
    apply existsb_exists. exists r. split; [by apply list_elem_of_In|].
    by rewrite bool_decide_eq_true_2, Hri.
  - intros Hnone. rewrite Forall_forall in Hnone.
    apply Z.bits_inj. intros i. rewrite getRoleFromOIDs_testbit.
    unfold UNKNOWN. rewrite Z.testbit_0_l.
    apply not_true_is_false. intros Hex.
    apply existsb_exists in Hex as (r & Hr & Hb).
    apply andb_true_iff in Hb as [Hin _]. apply bool_decide_eq_true in Hin.
    apply (Hnone _ Hin). apply list_elem_of_fmap_2. by apply list_elem_of_In.
Qed.

(** C10: [getRoleFromOIDs] is defined on every list of OIDs and returns
    the bitwise union of the role bits whose OID occurs in the list;
    dropping the OIDs that are not in the role table changes nothing,
    such OIDs alone give no bit, and the result is UNKNOWN exactly when
    no OID of the list is in the table. *)
Theorem getRoleFromOIDs_union (oids : list ObjectIdentifier) :
  getRoleFromOIDs oids = roleUnion oids
  /\ getRoleFromOIDs (filter (fun oid => oid ∈ knownOIDs) oids) = getRoleFromOIDs oids
  /\ getRoleFromOIDs (filter (fun oid => oid ∉ knownOIDs) oids) = UNKNOWN
  /\ (getRoleFromOIDs oids = UNKNOWN <-> Forall (fun oid => oid ∉ knownOIDs) oids).
Proof.
  split; [apply getRoleFromOIDs_roleUnion|]. split; [|split].
  - apply getRoleFromOIDs_ext. intros oid Hknown.
    rewrite list_elem_of_filter. tauto.
  - apply getRoleFromOIDs_unknown_iff, Forall_forall.
    intros oid Hin. by apply list_elem_of_filter in Hin as [Hnot _].
  - apply getRoleFromOIDs_unknown_iff.
Qed.

(** ** From roles to OIDs and back *)

Lemma unionOfRoles_low (rs : list Z) :
  Forall (fun b => b ∈ definedRoles) rs ->
  Z.land (unionOfRoles rs) 0x3f = unionOfRoles rs.
Proof.
  induction 1 as [|b rs Hb Hrs IH]; [done|].
  unfold unionOfRoles in *. cbn [foldr].
  rewrite Z.land_lor_distr_l, IH. f_equal.
  unfold definedRoles in Hb.
  repeat (apply elem_of_cons in Hb as [->|Hb]; [done|]).
  by apply elem_of_nil in Hb.
Qed.

Lemma low_range (r : Z) : Z.land r 0x3f = r -> 0 <= r < 64.
Proof.
  intros <-. change 0x3f with (Z.ones 6). rewrite Z.land_ones by lia.
  apply Z.mod_pos_bound. lia.
Qed.

(** The round trip on each of the sixty-four masks over the six bits,
    checked by running the two functions. *)
Lemma roundtrip_low (r : Z) :
  0 <= r < 64 ->
  getRoleFromOIDs (fst (getOIDsFromRole r)) = r
  /\ (snd (getOIDsFromRole r) = None <-> r <> UNKNOWN).
Proof.
  intros Hr.
  assert (Hall : forallb
            (fun r => (getRoleFromOIDs (fst (getOIDsFromRole r)) =? r)
                      && eqb (match snd (getOIDsFromRole r) with
                              | None => true
                              | Some _ => false
                              end)
                             (negb (r =? UNKNOWN)))
            (seqZ 0 64) = true) by (vm_compute; reflexivity).
  rewrite forallb_forall in Hall.
  specialize (Hall r). rewrite <- list_elem_of_In, elem_of_seqZ in Hall.
  apply andb_true_iff in Hall as [Hrt Herr]; [|lia].
  apply Z.eqb_eq in Hrt. apply eqb_prop in Herr.
  split; [done|].
  destruct (Z.eqb_spec r UNKNOWN) as [->|Hne];
    destruct (snd (getOIDsFromRole _)); simpl in Herr; try discriminate;
    split; (done || congruence).
Qed.

(** C1: for a bitmask [r] that is a union of defined role bits, the OID
    list of [getOIDsFromRole r] is mapped back to [r] by
    [getRoleFromOIDs]; [getOIDsFromRole] reports an error only for the
    empty union, with the empty list. *)
Theorem role_oid_roundtrip (rs : list Z) :
  Forall (fun b => b ∈ definedRoles) rs ->
  getRoleFromOIDs (fst (getOIDsFromRole (unionOfRoles rs))) = unionOfRoles rs
  /\ (snd (getOIDsFromRole (unionOfRoles rs)) = None <-> unionOfRoles rs <> UNKNOWN).
Proof.
  intros Hrs. by apply roundtrip_low, low_range, unionOfRoles_low.
Qed.

(** The round trip on Controller|SCHEDULER|CNCIAGENT = 0x2a. *)
Lemma role_oid_roundtrip_witness :
  Forall (fun b => b ∈ definedRoles) [Controller; SCHEDULER; CNCIAGENT]
  /\ getRoleFromOIDs (fst (getOIDsFromRole 0x2a)) = 0x2a.
Proof.
  assert (H : Forall (fun b => b ∈ definedRoles) [Controller; SCHEDULER; CNCIAGENT]).
  { repeat constructor. }
  split; [exact H|].
  exact (proj1 (role_oid_roundtrip [Controller; SCHEDULER; CNCIAGENT] H)).
Defined.

(** C8: the role table pairs each role bit with the OID
    [1.3.6.1.4.1.343.8.n] of the specification's table, no role and no
    OID occurs twice, and on each pair the two conversions are inverse:
    the role alone yields exactly its OID, and the OID alone yields
    exactly its role. *)
Theorem roleOID_table :
  (fun r => (entry_role r, entry_oid r)) <$> roleOID
  = (fun p => (fst p, roleOIDPrefix ++ [snd p])) <$> specRoleTable
  /\ (AGENT, SCHEDULER, Controller, NETAGENT, SERVER, CNCIAGENT)
     = (0x4, 0x8, 0x2, 0x10, 0x1, 0x20)
  /\ NoDup (entry_role <$> roleOID)
  /\ NoDup (entry_oid <$> roleOID)
  /\ Forall
       (fun p =>
          getOIDsFromRole (fst p) = ([roleOIDPrefix ++ [snd p]], None)
          /\ getRoleFromOIDs [roleOIDPrefix ++ [snd p]] = fst p)
       specRoleTable.
Proof.
  split; [reflexivity|]. split; [reflexivity|].
  split; [|split].
  - apply (bool_decide_unpack _). by vm_compute.
  - apply (bool_decide_unpack _). by vm_compute.
  - repeat constructor.
Qed.

(** ** Checking a declared role against a certificate *)

Lemma verifyRole_tls (cert0 : Certificate) (certs : list Certificate) (role : Z) :
  verifyRole (TLSConn (mkConnectionState (cert0 :: certs))) role
  = if Z.land (getRoleFromOIDs (UnknownExtKeyUsage cert0)) role =? role
    then Returned (true, None) else Returned (false, Some oidError).
Proof. unfold verifyRole. simpl. by destruct (_ =? _). Qed.

(** C2: on a TLS connection whose peer presented a certificate,
    [verifyRole] accepts the declared role exactly when the role
    certified by the certificate's extended-key-usage OIDs covers it,
    [declared & certified = declared], and otherwise rejects it with
    [oidError]. *)
Theorem verifyRole_covers (cert0 : Certificate) (certs : list Certificate)
    (declared : Z) :
  let conn := TLSConn (mkConnectionState (cert0 :: certs)) in
  let certified := getRoleFromOIDs (UnknownExtKeyUsage cert0) in
  (verifyRole conn declared = Returned (true, None)
   <-> Z.land declared certified = declared)
  /\ (verifyRole conn declared = Returned (false, Some oidError)
      <-> Z.land declared certified <> declared).
Proof.
  intros conn certified. unfold conn. rewrite verifyRole_tls.
  fold certified. rewrite (Z.land_comm certified declared).
  destruct (Z.eqb_spec (Z.land declared certified) declared) as [Heq|Hne].
  - split; split; (done || congruence).
  - split; split; (done || congruence).
Qed.

(** C9: on a TLS connection whose peer presented a certificate,
    [verifyRole] with declared role UNKNOWN returns [true] and no error,
    whatever OIDs the certificate carries. *)
Theorem verifyRole_unknown (cert0 : Certificate) (certs : list Certificate) :
  verifyRole (TLSConn (mkConnectionState (cert0 :: certs))) UNKNOWN
  = Returned (true, None).
Proof. rewrite verifyRole_tls. unfold UNKNOWN. by rewrite Z.land_0_r. Qed.

(** ** Parsing the endpoint certificate *)

Section ParseCertificateFacts.

Variable ioutil_ReadFile : string -> list byte * option error.
Variable pem_Decode : list byte -> option Block * list byte.
Variable x509_ParseCertificates : list byte -> list Certificate * option error.

(** An unreadable file ends the process. *)
Lemma parseCertificate_unreadable config certPEM e :
  ioutil_ReadFile (Cert config) = (certPEM, Some e) ->
  parseCertificate ioutil_ReadFile pem_Decode x509_ParseCertificates config
  = Exited 1.
Proof. unfold parseCertificate. by intros ->. Qed.

(** C7: on a certificate file that holds no PEM block,
    [parseCertificate] returns neither an error nor a role: after the
    message about the nil block it reads [certBlock.Bytes] and panics. *)
Theorem parseCertificate_nil_block config certPEM rest :
  ioutil_ReadFile (Cert config) = (certPEM, None) ->
  pem_Decode certPEM = (None, rest) ->
  parseCertificate ioutil_ReadFile pem_Decode x509_ParseCertificates config
  = Panicked "nil pointer dereference".
Proof. unfold parseCertificate. by intros -> ->. Qed.

(** A block that does not parse is reported as an error, with role 0. *)
Lemma parseCertificate_parse_error config certPEM block rest certs e :
  ioutil_ReadFile (Cert config) = (certPEM, None) ->
  pem_Decode certPEM = (Some block, rest) ->
  x509_ParseCertificates (Bytes block) = (certs, Some e) ->
  parseCertificate ioutil_ReadFile pem_Decode x509_ParseCertificates config
  = Returned (0, Some e).
Proof. unfold parseCertificate. by intros -> -> ->. Qed.

(** A block that parses to no certificate at all makes [cert[0]] panic. *)
Lemma parseCertificate_no_certificate config certPEM block rest :
  ioutil_ReadFile (Cert config) = (certPEM, None) ->
  pem_Decode certPEM = (Some block, rest) ->
  x509_ParseCertificates (Bytes block) = ([], None) ->
  parseCertificate ioutil_ReadFile pem_Decode x509_ParseCertificates config
  = Panicked "index out of range".
Proof. unfold parseCertificate. by intros -> -> ->. Qed.

(** With a certificate in hand: an error exactly when its OIDs give no
    role, and otherwise the nonzero role they give. *)
Lemma parseCertificate_role config certPEM block rest cert0 certs :
  ioutil_ReadFile (Cert config) = (certPEM, None) ->
  pem_Decode certPEM = (Some block, rest) ->
  x509_ParseCertificates (Bytes block) = (cert0 :: certs, None) ->
  let role := getRoleFromOIDs (UnknownExtKeyUsage cert0) in
  (role = UNKNOWN ->
   parseCertificate ioutil_ReadFile pem_Decode x509_ParseCertificates config
   = Returned (UNKNOWN, Some (ErrorString "Could not find a SSNTP role")))
  /\ (role <> UNKNOWN ->
      parseCertificate ioutil_ReadFile pem_Decode x509_ParseCertificates config
      = Returned (role, None)
      /\ 0 < role < 2 ^ 32).
Proof.
  unfold parseCertificate. intros -> -> ->. cbv zeta.
  pose proof (getRoleFromOIDs_range (UnknownExtKeyUsage cert0)) as Hrange.
  set (role := getRoleFromOIDs (UnknownExtKeyUsage cert0)) in *.
  destruct (Z.eqb_spec role UNKNOWN) as [Heq|Hne].
  - split; [by rewrite Heq|done].
  - split; [done|]. intros _. split; [done|]. unfold UNKNOWN in Hne. lia.
Qed.

End ParseCertificateFacts.

(** A server certificate file whose content is not PEM. *)
Lemma parseCertificate_nil_block_witness :
  parseCertificate
    (fun _ => (list_byte_of_string "not a certificate", None))
    (fun bs => (None, bs))
    (fun _ => ([], None))
    (mkConfig "" "" SCHEDULER defaultCA defaultServerCert "tcp" true 8888)
  = Panicked "nil pointer dereference".
Proof.
  apply (parseCertificate_nil_block _ _ _ _
           (list_byte_of_string "not a certificate")
           (list_byte_of_string "not a certificate"));
    reflexivity.
Defined.

(** ** Descriptors *)

Lemma lowest_free_from_ge (t : gmap Z OpenFile) (fuel : nat) (fd : Z) :
  fd <= lowest_free_from t fuel fd.
Proof.
  revert fd. induction fuel as [|n IH]; intros fd; simpl; [lia|].
  destruct (t !! fd); [|lia]. specialize (IH (fd + 1)). lia.
Qed.

(** If the search ends on an open descriptor, every descriptor it walked
    over is open. *)
Lemma lowest_free_from_taken (t : gmap Z OpenFile) (fuel : nat) (fd : Z) :
  is_Some (t !! lowest_free_from t fuel fd) ->
  forall k, fd <= k <= fd + Z.of_nat fuel -> is_Some (t !! k).
Proof.
  revert fd. induction fuel as [|n IH]; intros fd; simpl.
  - intros Hs k Hk. by replace k with fd by lia.
  - destruct (t !! fd) eqn:Hfd.
    + intros Hs k Hk. destruct (decide (k = fd)) as [->|Hne]; [by rewrite Hfd|].
      apply (IH (fd + 1) Hs). lia.
    + intros Hs. rewrite Hfd in Hs. by destruct Hs.
Qed.

(** A table of [n] descriptors cannot hold all of [0..n]. *)
Lemma lowest_free_fresh (t : gmap Z OpenFile) : t !! lowest_free t = None.
Proof.
  apply eq_None_not_Some. intros Hs.
  pose proof (lowest_free_from_taken t (size t) 0 Hs) as Hall.
  assert (Hsub : (list_to_set (seqZ 0 (Z.of_nat (S (size t)))) : gset Z) ⊆ dom t).
  { intros k Hk. apply elem_of_list_to_set, elem_of_seqZ in Hk.
    apply elem_of_dom, Hall. lia. }
  apply subseteq_size in Hsub.
  rewrite size_list_to_set, length_seqZ, size_dom in Hsub by apply NoDup_seqZ.
  lia.
Qed.

Lemma lowest_free_nonneg (t : gmap Z OpenFile) : 0 <= lowest_free t.
Proof. apply lowest_free_from_ge. Qed.

Lemma create_if_missing_content (p q : string) (fs : gmap string (list byte)) :
  default [] (create_if_missing p fs !! q) = default [] (fs !! q).
Proof.
  unfold create_if_missing. destruct (fs !! p) eqn:Hp; [done|].
  destruct (decide (p = q)) as [->|Hne].
  - by rewrite lookup_insert_eq, Hp.
  - by rewrite lookup_insert_ne.
Qed.

(** ** What each system call does to the world *)

Section Syscalls.

Context {UUID : Type}.
Implicit Types (w : World UUID).

Lemma syscall_Open_inv path w fd err w' :
  syscall_Open path w = ((fd, err), w') ->
  match open_fault (host w) path with
  | Some e => fd = -1 /\ err = Some e /\ w' = w
  | None =>
      err = None /\ 0 <= fd /\ fdtable w !! fd = None
      /\ w' = mkWorld (host w) (create_if_missing path (files w))
                      (<[fd := mkOpenFile path 0 false]> (fdtable w)) (drawn w)
  end.
Proof.
  unfold syscall_Open. destruct (open_fault (host w) path); intros [= <- <- <-].
  - done.
  - split; [done|]. split; [apply lowest_free_nonneg|].
    split; [apply lowest_free_fresh|done].
Qed.

Lemma syscall_Close_world fd w :
  snd (syscall_Close fd w)
  = mkWorld (host w) (files w) (delete fd (fdtable w)) (drawn w).
Proof.
  unfold syscall_Close. destruct (fdtable w !! fd) eqn:Hfd; simpl.
  - done.
  - rewrite delete_id by done. by destruct w.
Qed.

Lemma syscall_Flock_lock_inv fd d err w w' :
  fdtable w !! fd = Some d ->
  syscall_Flock fd LOCK_EX_LOCK_NB w = (err, w') ->
  (err = None
   /\ (of_flock d = true \/ flock_conflict w fd (of_path d) = false)
   /\ w' = mkWorld (host w) (files w)
             (<[fd := mkOpenFile (of_path d) (of_offset d) true]> (fdtable w))
             (drawn w))
  \/ (err = Some (Errno EWOULDBLOCK)
      /\ of_flock d = false /\ flock_conflict w fd (of_path d) = true /\ w' = w).
Proof.
  unfold syscall_Flock. intros Hfd. rewrite Hfd.
  destruct (of_flock d) eqn:Hheld.
  - intros [= <- <-]. left. split; [done|]. split; [by left|].
    rewrite insert_id; [by destruct w|]. rewrite Hfd, <- Hheld. by destruct d.
  - destruct (flock_conflict w fd (of_path d)) eqn:Hc; intros [= <- <-].
    + by right.
    + left. split; [done|]. split; [by right|done].
Qed.

Lemma syscall_Flock_unlock fd d w :
  fdtable w !! fd = Some d ->
  syscall_Flock fd LOCK_UN w
  = (None,
     mkWorld (host w) (files w)
       (<[fd := mkOpenFile (of_path d) (of_offset d) false]> (fdtable w))
       (drawn w)).
Proof. unfold syscall_Flock. by intros ->. Qed.

Lemma syscall_Read_inv fd d p w n buf err w' :
  fdtable w !! fd = Some d ->
  syscall_Read fd p w = ((n, buf, err), w') ->
  match read_fault (host w) (of_path d) with
  | Some e => err = Some e /\ w' = w
  | None =>
      let data :=
        take (length p) (drop (of_offset d) (default [] (files w !! of_path d))) in
      err = None /\ n = Z.of_nat (length data)
      /\ buf = data ++ drop (length data) p
      /\ w' = mkWorld (host w) (files w)
                (<[fd := mkOpenFile (of_path d) (of_offset d + length data)
                                    (of_flock d)]> (fdtable w))
                (drawn w)
  end.
Proof.
  unfold syscall_Read. intros ->.
  destruct (read_fault (host w) (of_path d)); intros [= <- <- <- <-]; done.
Qed.

Lemma syscall_Write_inv fd d p w n err w' :
  fdtable w !! fd = Some d ->
  syscall_Write fd p w = ((n, err), w') ->
  match write_fault (host w) (of_path d) with
  | Some e => err = Some e /\ w' = w
  | None =>
      let content := default [] (files w !! of_path d) in
      err = None
      /\ w' = mkWorld (host w)
                (<[of_path d :=
                     take (of_offset d) content
                     ++ replicate (of_offset d - length content) x00
                     ++ p ++ drop (of_offset d + length p) content]> (files w))
                (<[fd := mkOpenFile (of_path d) (of_offset d + length p)
                                    (of_flock d)]> (fdtable w))
                (drawn w)
  end.
Proof.
  unfold syscall_Write. intros ->.
  destruct (write_fault (host w) (of_path d)); intros [= <- <- <-]; done.
Qed.

Lemma foreign_conflict w fd path :
  path ∈ foreign_flocks (host w) -> flock_conflict w fd path = true.
Proof. intros H. unfold flock_conflict. by rewrite bool_decide_eq_true_2. Qed.

(** No conflict: the file is not locked by another process, and no
    other descriptor of this process holds a lock on it. *)
Lemma no_conflict w fd path :
  path ∉ foreign_flocks (host w) ->
  (forall k d, fdtable w !! k = Some d -> k <> fd -> of_path d = path ->
               of_flock d = false) ->
  flock_conflict w fd path = false.
Proof.
  intros Hforeign Hown. unfold flock_conflict.
  rewrite bool_decide_eq_false_2 by done. simpl.
  apply not_true_is_false. intros Hex.
  apply existsb_exists in Hex as ([k d] & Hin & Hb). simpl in Hb.
  apply list_elem_of_In, elem_of_map_to_list in Hin.
  apply andb_true_iff in Hb as [Hb Hheld].
  apply andb_true_iff in Hb as [Hne Hpath].
  apply negb_true_iff, Z.eqb_neq in Hne. apply bool_decide_eq_true in Hpath.
  rewrite (Hown k d Hin Hne Hpath) in Hheld. done.
Qed.

End Syscalls.

(** ** The identity store *)

(** Two descriptor tables that differ at most at [fd] and [lfd]. *)
Ltac table_eq fd lfd :=
  apply map_eq; intros ?;
  match goal with
  | |- _ !! ?k = _ =>
      destruct (decide (k = fd)); destruct (decide (k = lfd));
      simplify_map_eq; done
  end.

Section Store.

Context {UUID : Type}.
Variable uuid_Parse : string -> UUID * option error.
Variable uuid_String : UUID -> string.
Implicit Types (w : World UUID) (lu nUUID randomUUID : lockedUUID UUID).

(** Once the lock is taken: an error closes [lockFd] and returns
    [nUUID]; a success returns [lockFd] and leaves it open.  Only the
    entry of [fd] changes otherwise. *)
Lemma readOrCreateUUID_tables nUUID fd lfd d w res w' :
  fdtable w !! fd = Some d -> fd <> lfd ->
  readOrCreateUUID uuid_Parse uuid_String nUUID fd lfd w = (res, w') ->
  host w' = host w
  /\ match snd res with
     | Some _ =>
         fst res = nUUID
         /\ delete fd (fdtable w') = delete fd (delete lfd (fdtable w))
     | None =>
         lockFd (fst res) = lfd
         /\ delete fd (fdtable w') = delete fd (fdtable w)
     end.
Proof.
  intros Hfd Hne. unfold readOrCreateUUID.
  destruct (syscall_Read fd _ w) as [[[n buf] err] w1] eqn:Hread.
  apply (syscall_Read_inv _ _ _ _ _ _ _ _ Hfd) in Hread.
  destruct (read_fault (host w) (of_path d)) as [e|].
  { destruct Hread as [-> ->]. rewrite (surjective_pairing (syscall_Close lfd w)).
    intros [= <- <-]. rewrite syscall_Close_world. simpl. done. }
  destruct Hread as (-> & Hn & Hbuf & ->).
  destruct ((n =? 0) || negb (n =? 36)) eqn:Hshort.
  - unfold uuid_Generate.
    destruct (syscall_Write fd _ _) as [[m err] w2] eqn:Hwrite.
    eapply syscall_Write_inv in Hwrite; [|simpl; apply lookup_insert_eq].
    simpl in Hwrite.
    destruct (write_fault (host w) (of_path d)) as [e|].
    + destruct Hwrite as [-> ->].
      rewrite (surjective_pairing (syscall_Close lfd _)).
      intros [= <- <-]. rewrite syscall_Close_world. simpl.
      split; [done|]. split; [done|]. table_eq fd lfd.
    + destruct Hwrite as [-> ->]. intros [= <- <-]. simpl.
      split; [done|]. split; [done|]. table_eq fd lfd.
  - apply orb_false_iff in Hshort as [_ H36]. apply negb_false_iff in H36.
    rewrite H36.
    destruct (uuid_Parse _) as [u [e|]].
    + rewrite (surjective_pairing (syscall_Close lfd _)).
      intros [= <- <-]. rewrite syscall_Close_world. simpl.
      split; [done|]. split; [done|]. table_eq fd lfd.
    + intros [= <- <-]. simpl.
      split; [done|]. split; [done|]. table_eq fd lfd.
Qed.

(** The two successful ways out of [readOrCreateUUID], computed. *)
Lemma readOrCreateUUID_short nUUID fd lfd p held w :
  let content := default [] (files w !! p) in
  let new := entropy (host w) (drawn w) in
  let text := list_byte_of_string (uuid_String new) in
  fdtable w !! fd = Some (mkOpenFile p 0 held) ->
  read_fault (host w) p = None ->
  write_fault (host w) p = None ->
  (length content < 36)%nat ->
  readOrCreateUUID uuid_Parse uuid_String nUUID fd lfd w
  = ((mkLockedUUID lfd new, None),
     mkWorld (host w) (<[p := content ++ text]> (files w))
       (<[fd := mkOpenFile p (length content + length text) held]> (fdtable w))
       (S (drawn w))).
Proof.
  intros content new text Hfd Hread Hwrite Hshort. unfold readOrCreateUUID.
  destruct (syscall_Read fd _ w) as [[[n buf] err] w1] eqn:Hr.
  apply (syscall_Read_inv _ _ _ _ _ _ _ _ Hfd) in Hr.
  cbn [of_path of_offset of_flock] in Hr. cbv zeta in Hr.
  rewrite Hread in Hr. fold content in Hr.
  rewrite drop_0, length_replicate in Hr.
  rewrite (take_ge content) in Hr by lia.
  destruct Hr as (-> & -> & -> & ->).
  replace ((Z.of_nat (length content) =? 0)
           || negb (Z.of_nat (length content) =? 36)) with true.
  2:{ symmetry. apply orb_true_iff. right. apply negb_true_iff, Z.eqb_neq. lia. }
  unfold uuid_Generate. simpl. fold new. fold text.
  destruct (syscall_Write fd text _) as [[m err] w2] eqn:Hw.
  eapply syscall_Write_inv in Hw; [|simpl; apply lookup_insert_eq].
  simpl in Hw. rewrite Hwrite in Hw. fold content in Hw.
  destruct Hw as [-> ->]. f_equal. f_equal.
  - f_equal. rewrite take_ge by lia. rewrite drop_ge by lia.
    replace (length content - length content)%nat with 0%nat by lia.
    simpl. by rewrite app_nil_r.
  - by rewrite insert_insert_eq.
Qed.

Lemma readOrCreateUUID_stored nUUID fd lfd p held w u :
  let content := default [] (files w !! p) in
  fdtable w !! fd = Some (mkOpenFile p 0 held) ->
  read_fault (host w) p = None ->
  (36 <= length content)%nat ->
  uuid_Parse (string_of_list_byte (take 36 content)) = (u, None) ->
  readOrCreateUUID uuid_Parse uuid_String nUUID fd lfd w
  = ((mkLockedUUID lfd u, None),
     mkWorld (host w) (files w) (<[fd := mkOpenFile p 36 held]> (fdtable w))
       (drawn w)).
Proof.
  intros content Hfd Hread Hlong Hparse. unfold readOrCreateUUID.
  destruct (syscall_Read fd _ w) as [[[n buf] err] w1] eqn:Hr.
  apply (syscall_Read_inv _ _ _ _ _ _ _ _ Hfd) in Hr.
  cbn [of_path of_offset of_flock] in Hr. cbv zeta in Hr.
  rewrite Hread in Hr. fold content in Hr.
  rewrite drop_0, length_replicate in Hr.
  rewrite length_take_le in Hr by lia.
  destruct Hr as (-> & -> & -> & ->).
  change ((Z.of_nat 36 =? 0) || negb (Z.of_nat 36 =? 36)) with false.
  cbv iota. change (Z.of_nat 36 =? 36) with true. cbv iota.
  rewrite drop_ge by (rewrite length_replicate; lia).
  rewrite app_nil_r, take_take. change (36 `min` 36)%nat with 36%nat.
  by rewrite Hparse.
Qed.

(** [lockAndRead] returns an error only with [nUUID] and with the
    lock descriptor closed again. *)
Lemma lockAndRead_error nUUID randomUUID lockFile fd d w lu e w' :
  fdtable w !! fd = Some d ->
  lockAndRead uuid_Parse uuid_String nUUID randomUUID lockFile fd w
  = ((lu, Some e), w') ->
  lu = nUUID /\ delete fd (fdtable w') = delete fd (fdtable w).
Proof.
  intros Hfd. unfold lockAndRead.
  destruct (syscall_Open lockFile w) as [[lfd err] w1] eqn:Hopen.
  apply syscall_Open_inv in Hopen.
  destruct (open_fault (host w) lockFile).
  { destruct Hopen as (-> & -> & ->). by intros [= <- <- <-]. }
  destruct Hopen as (-> & Hpos & Hfresh & ->).
  assert (Hne : fd <> lfd) by congruence.
  destruct (syscall_Flock lfd _ _) as [err w2] eqn:Hflock.
  eapply syscall_Flock_lock_inv in Hflock; [|simpl; apply lookup_insert_eq].
  destruct Hflock as [(-> & _ & ->)|(-> & _ & _ & ->)].
  - intros Hrun.
    eapply readOrCreateUUID_tables in Hrun as [_ Hrun];
      [|simpl; by rewrite !lookup_insert_ne by done|done].
    simpl in Hrun. destruct Hrun as [-> Htable]. split; [done|].
    rewrite Htable. table_eq fd lfd.
  - rewrite (surjective_pairing (syscall_Close lfd _)). by intros [= <- ? <-].
Qed.

End Store.

Section StoreClaims.

Context {UUID : Type}.
Variable uuid_Parse : string -> UUID * option error.
Variable uuid_String : UUID -> string.
Implicit Types (w : World UUID) (lu : lockedUUID UUID).

(** C5: when [newUUID] returns an error, the returned value has
    [lockFd = -1] and the descriptor table of the process is what it
    was before the call: the lock descriptor and the UUID file
    descriptor opened on the way are closed again, so no lock taken
    through them remains. *)
Theorem newUUID_error_no_leak prefix role w lu e w' :
  newUUID uuid_Parse uuid_String prefix role w = ((lu, Some e), w') ->
  lockFd lu = -1 /\ fdtable w' = fdtable w.
Proof.
  unfold newUUID, uuid_Generate, os_MkdirAll. cbv zeta. cbn [fst snd].
  change (host (with_drawn (S (drawn w)) w)) with (host w).
  destruct (mkdir_fault (host w) uuidLockPrefix).
  { by intros [= <- <- <-]. }
  destruct (syscall_Open (uuidFilePath prefix role) _) as [[fd err] w1] eqn:Hopen.
  apply syscall_Open_inv in Hopen. cbn [host fdtable files drawn with_drawn] in Hopen.
  destruct (open_fault (host w) (uuidFilePath prefix role)).
  { destruct Hopen as (-> & -> & ->). by intros [= <- <- <-]. }
  destruct Hopen as (-> & Hpos & Hfresh & ->).
  destruct (lockAndRead _ _ _ _ _ _ _) as [[lu' err'] w2] eqn:Hrun.
  rewrite (surjective_pairing (syscall_Close fd w2)). intros [= <- -> <-].
  eapply lockAndRead_error in Hrun as [-> Htable];
    [|cbn [fdtable]; apply lookup_insert_eq].
  split; [done|]. rewrite syscall_Close_world. cbn [fdtable] in *.
  rewrite Htable, delete_insert_eq. by apply delete_id.
Qed.

(** C4: when the directories and both files can be opened and the
    lock file is locked by another process, [newUUID] returns no
    error and the UUID generated at the start of the call, with
    [lockFd = -1]; the descriptors it opened are closed again. *)
Theorem newUUID_locked_elsewhere prefix role w :
  mkdir_fault (host w) uuidLockPrefix = None ->
  open_fault (host w) (uuidFilePath prefix role) = None ->
  open_fault (host w) (uuidLockFilePath prefix role) = None ->
  uuidLockFilePath prefix role ∈ foreign_flocks (host w) ->
  fst (newUUID uuid_Parse uuid_String prefix role w)
  = (mkLockedUUID (-1) (entropy (host w) (drawn w)), None)
  /\ fdtable (snd (newUUID uuid_Parse uuid_String prefix role w)) = fdtable w.
Proof.
  intros Hmk Ho1 Ho2 Hlocked.
  unfold newUUID, uuid_Generate, os_MkdirAll. cbv zeta. cbn [fst snd].
  change (host (with_drawn (S (drawn w)) w)) with (host w). rewrite Hmk.
  destruct (syscall_Open (uuidFilePath prefix role) _) as [[fd err] w1] eqn:Hopen.
  apply syscall_Open_inv in Hopen. cbn [host fdtable files drawn with_drawn] in Hopen.
  rewrite Ho1 in Hopen. destruct Hopen as (-> & Hpos & Hfresh & ->).
  unfold lockAndRead.
  destruct (syscall_Open (uuidLockFilePath prefix role) _)
    as [[lfd err] w2] eqn:Hopen2.
  apply syscall_Open_inv in Hopen2. cbn [host fdtable files drawn] in Hopen2.
  rewrite Ho2 in Hopen2. destruct Hopen2 as (-> & Hpos2 & Hfresh2 & ->).
  destruct (syscall_Flock lfd _ _) as [err w3] eqn:Hflock.
  eapply syscall_Flock_lock_inv in Hflock; [|cbn [fdtable]; apply lookup_insert_eq].
  cbn [of_path of_flock] in Hflock.
  rewrite foreign_conflict in Hflock by done.
  destruct Hflock as [(_ & [?|?] & _)|(-> & _ & _ & ->)]; [done|done|].
  rewrite (surjective_pairing (syscall_Close lfd _)).
  rewrite (surjective_pairing (syscall_Close fd _)).
  split; [done|]. cbn [snd]. rewrite !syscall_Close_world. cbn [fdtable].
  assert (fd <> lfd) by (intros ->; by rewrite lookup_insert_eq in Hfresh2).
  table_eq fd lfd.
Qed.

(** C3, as the code has it: when [newUUID] gets as far as the lock and
    takes it, and the UUID file can be read, then (1) if the file holds
    fewer than 36 bytes and can be written, the UUID generated second
    in the call is returned and its text is written to the file, which
    holds nothing else when it was empty, and (2) if the first 36 bytes
    of the file parse as a UUID, that UUID is returned and the file is
    as it was; in both cases the one descriptor left open is the
    returned [lockFd], on the lock file, with the lock held through it. *)
Theorem newUUID_lock_obtained prefix role w :
  let uuidFile := uuidFilePath prefix role in
  let lockFile := uuidLockFilePath prefix role in
  let content := default [] (files w !! uuidFile) in
  let run := newUUID uuid_Parse uuid_String prefix role w in
  mkdir_fault (host w) uuidLockPrefix = None ->
  open_fault (host w) uuidFile = None ->
  open_fault (host w) lockFile = None ->
  lockFile ∉ foreign_flocks (host w) ->
  (forall k d, fdtable w !! k = Some d -> of_path d = lockFile ->
               of_flock d = false) ->
  read_fault (host w) uuidFile = None ->
  exists lfd,
    0 <= lfd /\ fdtable w !! lfd = None
    /\ ((length content < 36)%nat ->
        write_fault (host w) uuidFile = None ->
        let new := entropy (host w) (S (drawn w)) in
        fst run = (mkLockedUUID lfd new, None)
        /\ fdtable (snd run) = <[lfd := mkOpenFile lockFile 0 true]> (fdtable w)
        /\ exists before,
             files (snd run) !! uuidFile
             = Some (before ++ list_byte_of_string (uuid_String new))
             /\ (content = [] -> before = []))
    /\ (forall u,
          (36 <= length content)%nat ->
          uuid_Parse (string_of_list_byte (take 36 content)) = (u, None) ->
          fst run = (mkLockedUUID lfd u, None)
          /\ fdtable (snd run) = <[lfd := mkOpenFile lockFile 0 true]> (fdtable w)
          /\ files (snd run) !! uuidFile = Some content).
Proof.
  intros uuidFile lockFile content run Hmk Ho1 Ho2 Hforeign Hown Hread.
  unfold run, newUUID, uuid_Generate, os_MkdirAll. cbv zeta. cbn [fst snd].
  change (host (with_drawn (S (drawn w)) w)) with (host w). rewrite Hmk.
  fold uuidFile lockFile.
  destruct (syscall_Open uuidFile _) as [[fd err] w1] eqn:Hopen.
  apply syscall_Open_inv in Hopen. cbn [host fdtable files drawn with_drawn] in Hopen.
  rewrite Ho1 in Hopen. destruct Hopen as (-> & Hpos & Hfresh & ->).
  unfold lockAndRead.
  destruct (syscall_Open lockFile _) as [[lfd err] w2] eqn:Hopen2.
  apply syscall_Open_inv in Hopen2. cbn [host fdtable files drawn] in Hopen2.
  rewrite Ho2 in Hopen2. destruct Hopen2 as (-> & Hpos2 & Hfresh2 & ->).
  assert (Hne : fd <> lfd) by (intros ->; by rewrite lookup_insert_eq in Hfresh2).
  rewrite lookup_insert_ne in Hfresh2 by done.
  destruct (syscall_Flock lfd _ _) as [err w3] eqn:Hflock.
  eapply syscall_Flock_lock_inv in Hflock; [|cbn [fdtable]; apply lookup_insert_eq].
  cbn [of_path of_flock of_offset host files fdtable drawn] in Hflock.
  rewrite no_conflict in Hflock; cycle 1.
  { done. }
  { cbn [fdtable]. intros k d Hk Hkl Hpath.
    rewrite lookup_insert_ne in Hk by done.
    destruct (decide (k = fd)) as [->|Hkf].
    - rewrite lookup_insert_eq in Hk. by injection Hk as <-.
    - rewrite lookup_insert_ne in Hk by done. by eapply Hown. }
  destruct Hflock as [(-> & _ & ->)|(_ & _ & ? & _)]; [|done].
  rewrite insert_insert_eq.
  set (w2 := mkWorld _ _ _ _).
  assert (Hfd2 : fdtable w2 !! fd = Some (mkOpenFile uuidFile 0 false)).
  { unfold w2. cbn [fdtable]. by rewrite lookup_insert_ne, lookup_insert_eq. }
  assert (Hcontent : default [] (files w2 !! uuidFile) = content).
  { unfold w2. cbn [files]. by rewrite !create_if_missing_content. }
  exists lfd. split; [done|]. split; [done|]. split.
  - intros Hshort Hwrite.
    rewrite (readOrCreateUUID_short _ _ _ _ _ _ _ _ Hfd2) by (done || by rewrite Hcontent).
    rewrite (surjective_pairing (syscall_Close fd _)). cbn [fst snd].
    rewrite syscall_Close_world. cbn [fdtable files host drawn].
    rewrite Hcontent. split; [done|]. split.
    + unfold w2. cbn [fdtable]. table_eq fd lfd.
    + exists content. split; [apply lookup_insert_eq|done].
  - intros u Hlong Hparse.
    rewrite (readOrCreateUUID_stored _ _ _ _ _ _ _ _ u Hfd2)
      by (done || by rewrite Hcontent).
    rewrite (surjective_pairing (syscall_Close fd _)). cbn [fst snd].
    rewrite syscall_Close_world. cbn [fdtable files host drawn].
    split; [done|]. split.
    + unfold w2. cbn [fdtable]. table_eq fd lfd.
    + destruct (files w2 !! uuidFile) as [c|] eqn:Hc; simpl in Hcontent.
      * by rewrite Hcontent.
      * rewrite <- Hcontent in Hlong. simpl in Hlong. lia.
Qed.

(** C6: [freeUUID] on a value with [lockFd = -1] returns no error and
    changes nothing; on a value whose [lockFd] is an open descriptor it
    returns no error and the lock is no longer held through that
    descriptor, nothing else being changed; a [lockFd] that is neither
    is reported as an error. *)
Theorem freeUUID_releases lu w :
  (lockFd lu = -1 -> freeUUID lu w = (None, w))
  /\ (forall d,
        lockFd lu <> -1 -> fdtable w !! lockFd lu = Some d ->
        freeUUID lu w
        = (None,
           mkWorld (host w) (files w)
             (<[lockFd lu := mkOpenFile (of_path d) (of_offset d) false]> (fdtable w))
             (drawn w)))
  /\ (lockFd lu <> -1 -> fdtable w !! lockFd lu = None ->
      freeUUID lu w = (Some (Errno EBADF), w)).
Proof.
  unfold freeUUID. split; [|split].
  - by intros ->.
  - intros d Hheld Hfd. apply Z.eqb_neq in Hheld. rewrite Hheld.
    by rewrite (syscall_Flock_unlock _ _ _ Hfd).
  - intros Hheld Hfd. apply Z.eqb_neq in Hheld. rewrite Hheld.
    unfold syscall_Flock. by rewrite Hfd.
Qed.

End StoreClaims.

(** An error after the lock was taken: the UUID file holds 36 bytes that
    do not parse. *)
Lemma newUUID_error_no_leak_witness :
  let w := HexUUID.boot
             {[ uuidFilePath "scheduler" SCHEDULER
                := list_byte_of_string "not-a-uuid-but-thirty-six-bytes-long" ]} ∅ in
  let r := HexUUID.acquire "scheduler" SCHEDULER w in
  snd (fst r) = Some HexUUID.ErrUUIDInvalid
  /\ lockFd (fst (fst r)) = -1 /\ fdtable (snd r) = fdtable w.
Proof.
  intros w r.
  assert (Herr : snd (fst r) = Some HexUUID.ErrUUIDInvalid) by (vm_compute; reflexivity).
  split; [exact Herr|].
  apply (newUUID_error_no_leak HexUUID.Parse HexUUID.String_ "scheduler" SCHEDULER w
           (fst (fst r)) HexUUID.ErrUUIDInvalid (snd r)).
  rewrite <- Herr. fold HexUUID.acquire. fold r. by destruct r as [[? ?] ?].
Defined.

(** The lock file of the scheduler role is locked by another process. *)
Lemma newUUID_locked_elsewhere_witness :
  let w := HexUUID.boot ∅ {[ uuidLockFilePath "scheduler" SCHEDULER ]} in
  let r := HexUUID.acquire "scheduler" SCHEDULER w in
  fst r = (mkLockedUUID (-1) (replicate 16 x01), None) /\ fdtable (snd r) = ∅.
Proof.
  intros w r.
  apply (newUUID_locked_elsewhere HexUUID.Parse HexUUID.String_ "scheduler" SCHEDULER w);
    [reflexivity | reflexivity | reflexivity |].
  apply elem_of_singleton. reflexivity.
Defined.

(** A first start on an empty host, and a start that finds a stored UUID. *)
Lemma newUUID_lock_obtained_witness :
  let path := uuidFilePath "scheduler" SCHEDULER in
  let stored := "01234567-89ab-cdef-0123-456789abcdef" in
  let fresh := HexUUID.acquire "scheduler" SCHEDULER (HexUUID.boot ∅ ∅) in
  let again :=
    HexUUID.acquire "scheduler" SCHEDULER
      (HexUUID.boot {[ path := list_byte_of_string stored ]} ∅) in
  (exists lfd,
     0 <= lfd
     /\ fst fresh = (mkLockedUUID lfd (replicate 16 x02), None)
     /\ files (snd fresh) !! path
        = Some (list_byte_of_string "02020202-0202-0202-0202-020202020202"))
  /\ (exists lfd,
        0 <= lfd
        /\ fst again = (mkLockedUUID lfd (fst (HexUUID.Parse stored)), None)
        /\ files (snd again) !! path = Some (list_byte_of_string stored)).
Proof.
  intros path stored fresh again. split.
  - destruct (newUUID_lock_obtained HexUUID.Parse HexUUID.String_ "scheduler" SCHEDULER
                (HexUUID.boot ∅ ∅))
      as (lfd & Hpos & _ & Hshort & _);
      [reflexivity | reflexivity | reflexivity | apply not_elem_of_empty | | reflexivity |].
    { intros k d Hk. unfold HexUUID.boot in Hk. cbn [fdtable] in Hk.
      by rewrite lookup_empty in Hk. }
    exists lfd. split; [exact Hpos|].
    destruct Hshort as (Hres & _ & before & Hfile & Hempty);
      [vm_compute; lia | reflexivity |].
    assert (before = []) as -> by (apply Hempty; vm_compute; reflexivity).
    split; [exact Hres | exact Hfile].
  - destruct (newUUID_lock_obtained HexUUID.Parse HexUUID.String_ "scheduler" SCHEDULER
                (HexUUID.boot {[ path := list_byte_of_string stored ]} ∅))
      as (lfd & Hpos & _ & _ & Hstored);
      [reflexivity | reflexivity | reflexivity | apply not_elem_of_empty | | reflexivity |].
    { intros k d Hk. unfold HexUUID.boot in Hk. cbn [fdtable] in Hk.
      by rewrite lookup_empty in Hk. }
    exists lfd. split; [exact Hpos|].
    destruct (Hstored (fst (HexUUID.Parse stored))) as (Hres & _ & Hfile);
      [vm_compute; lia | vm_compute; reflexivity |].
    split; [exact Hres | exact Hfile].
Defined.

(** Releasing a value without a lock, and one that holds the lock through
    descriptor 1. *)
Lemma freeUUID_releases_witness :
  let lockFile := uuidLockFilePath "scheduler" SCHEDULER in
  let w := mkWorld (HexUUID.quiet ∅) ∅ {[ 1 := mkOpenFile lockFile 0 true ]} 2 in
  freeUUID (mkLockedUUID (-1) (replicate 16 x01)) w = (None, w)
  /\ freeUUID (mkLockedUUID 1 (replicate 16 x02)) w
     = (None,
        mkWorld (HexUUID.quiet ∅) ∅
          (<[1 := mkOpenFile lockFile 0 false]> {[ 1 := mkOpenFile lockFile 0 true ]}) 2).
Proof.
  intros lockFile w. split.
  - apply (proj1 (freeUUID_releases (mkLockedUUID (-1) (replicate 16 x01)) w)).
    reflexivity.
  - apply (proj1 (proj2 (freeUUID_releases (mkLockedUUID 1 (replicate 16 x02)) w))
             (mkOpenFile lockFile 0 true)).
    + discriminate.
    + reflexivity.
Defined.

(** C3 as the specification words it fails on a UUID file of 40 bytes,
    so of a length other than 36, that starts with a valid UUID: the lock
    is taken, the stored UUID is returned, and no new UUID is generated
    beyond the one drawn at the start of every call, nor written. *)
Lemma newUUID_long_file_counterexample :
  let path := uuidFilePath "scheduler" SCHEDULER in
  let stored := "01234567-89ab-cdef-0123-456789abcdef" in
  let w := HexUUID.boot {[ path := list_byte_of_string (stored +:+ "junk") ]} ∅ in
  let r := HexUUID.acquire "scheduler" SCHEDULER w in
  length (default [] (files w !! path)) = 40%nat
  /\ fst r = (mkLockedUUID 1 (fst (HexUUID.Parse stored)), None)
  /\ uuid (fst (fst r)) <> entropy (host w) 0
  /\ uuid (fst (fst r)) <> entropy (host w) 1
  /\ drawn (snd r) = 1%nat
  /\ files (snd r) !! path = files w !! path.
Proof.
  vm_compute. repeat split; discriminate.
Qed.

(** A short file is not overwritten: the new UUID lands after the bytes
    that were read, and the next call finds 36 bytes that do not parse. *)
Example short_file_is_appended_to :
  let path := uuidFilePath "scheduler" SCHEDULER in
  let w := HexUUID.boot {[ path := list_byte_of_string "hello" ]} ∅ in
  let first := HexUUID.acquire "scheduler" SCHEDULER w in
  let released := snd (freeUUID (fst (fst first)) (snd first)) in
  let second := HexUUID.acquire "scheduler" SCHEDULER released in
  files (snd first) !! path
  = Some (list_byte_of_string "hello02020202-0202-0202-0202-020202020202")
  /\ snd (fst second) = Some HexUUID.ErrUUIDInvalid.
Proof. vm_compute. split; reflexivity. Qed.

(** The race of the specification's scenario: the first caller gets the
    stored UUID and the lock, the second a random UUID and no lock, and
    after a release the stored UUID is handed out again. *)
Example acquisition_race :
  let w := HexUUID.boot ∅ ∅ in
  let first := HexUUID.acquire "scheduler" SCHEDULER w in
  let second := HexUUID.acquire "scheduler" SCHEDULER (snd first) in
  let released := snd (freeUUID (fst (fst first)) (snd second)) in
  let third := HexUUID.acquire "scheduler" SCHEDULER released in
  fst first = (mkLockedUUID 1 (replicate 16 x02), None)
  /\ fst second = (mkLockedUUID (-1) (replicate 16 x03), None)
  /\ fst third = (mkLockedUUID 2 (replicate 16 x02), None).
Proof. vm_compute. repeat split; reflexivity. Qed.

(** * More of the package *)

(** ** Masks beyond the six role bits *)

Lemma land_low_bits (r b : Z) :
  Z.land b 0x3f = b -> Z.land (Z.land r 0x3f) b = Z.land r b.
Proof.
  intros Hb. by rewrite <- Z.land_assoc, (Z.land_comm 0x3f b), Hb.
Qed.

Lemma land_low_idem (r : Z) : Z.land (Z.land r 0x3f) 0x3f = Z.land r 0x3f.
Proof. by rewrite <- Z.land_assoc, Z.land_diag. Qed.

(** The selection of [getOIDsFromRole] looks at the six role bits only. *)
Lemma selectOIDs_low (table : list roleOIDEntry) (role : Z) :
  Forall (fun r => Z.land (entry_role r) 0x3f = entry_role r) table ->
  selectOIDs table (Z.land role 0x3f) = selectOIDs table role.
Proof.
  intros Hlow. rewrite !selectOIDs_filter. f_equal.
  induction Hlow as [|r t Hr Ht IH]; [done|].
  rewrite !filter_cons, IH, (land_low_bits role _ Hr).
  by destruct (decide _).
Qed.

Lemma getOIDsFromRole_fst (role : Z) :
  fst (getOIDsFromRole role) = selectOIDs roleOID role.
Proof.
  unfold getOIDsFromRole. destruct (selectOIDs roleOID role) as [|oid oids]; done.
Qed.

Lemma getOIDsFromRole_snd (role : Z) :
  snd (getOIDsFromRole role) = None <-> selectOIDs roleOID role <> [].
Proof.
  unfold getOIDsFromRole. destruct (selectOIDs roleOID role) as [|oid oids]; simpl.
  - split; [discriminate|done].
  - split; [discriminate|done].
Qed.

(** X1: for every [role], also one with bits outside the table, the role
    certified by the OIDs of [getOIDsFromRole role] is [role] cut down to
    the six role bits. *)
Theorem getOIDsFromRole_certifies_low_bits (role : Z) :
  getRoleFromOIDs (fst (getOIDsFromRole role)) = Z.land role 0x3f.
Proof.
  rewrite getOIDsFromRole_fst, <- selectOIDs_low by apply roleOID_roles_low.
  rewrite <- getOIDsFromRole_fst.
  apply roundtrip_low, low_range, land_low_idem.
Qed.

(** X2: [getOIDsFromRole] fails exactly on the roles without any of the
    six role bits; the OIDs it returns are role OIDs of the table, each
    at most once. *)
Theorem getOIDsFromRole_error_iff (role : Z) :
  (snd (getOIDsFromRole role) = None <-> Z.land role 0x3f <> UNKNOWN)
  /\ (fst (getOIDsFromRole role) = [] <-> Z.land role 0x3f = UNKNOWN)
  /\ NoDup (fst (getOIDsFromRole role))
  /\ Forall (fun oid => oid ∈ knownOIDs) (fst (getOIDsFromRole role)).
Proof.
  assert (Hsel : selectOIDs roleOID role <> [] <-> Z.land role 0x3f <> UNKNOWN).
  { rewrite <- selectOIDs_low by apply roleOID_roles_low.
    rewrite <- getOIDsFromRole_snd.
    apply roundtrip_low, low_range, land_low_idem. }
  split; [by rewrite getOIDsFromRole_snd|].
  rewrite getOIDsFromRole_fst. split; [|split].
  - destruct (decide (selectOIDs roleOID role = [])) as [Hnil|Hnil];
      destruct (decide (Z.land role 0x3f = UNKNOWN)); tauto.
  - rewrite selectOIDs_filter.
    apply (sublist_NoDup _ (entry_oid <$> roleOID)).
    + apply (bool_decide_unpack _). by vm_compute.
    + apply fmap_sublist, sublist_filter.
  - rewrite selectOIDs_filter. apply Forall_forall. intros oid Hin.
    apply list_elem_of_fmap in Hin as (r & -> & Hr).
    apply list_elem_of_filter in Hr as [_ Hr].
    by apply list_elem_of_fmap_2.
Qed.

(** A role of the table is covered by [x] exactly when its bit is set. *)
Lemma land_bit_iff (x : Z) (k : Z) :
  0 <= k -> Z.land x (2 ^ k) = 2 ^ k <-> Z.testbit x k = true.
Proof.
  intros Hk. split.
  - intros Heq.
    assert (H : Z.testbit (Z.land x (2 ^ k)) k = true)
      by (rewrite Heq; by apply Z.pow2_bits_true).
    rewrite Z.land_spec in H. by apply andb_true_iff in H as [? _].
  - intros Hbit. apply Z.bits_inj. intros i. rewrite Z.land_spec.
    destruct (decide (i = k)) as [->|Hne].
    + by rewrite Hbit, Z.pow2_bits_true.
    + rewrite (Z.pow2_bits_false k i) by done. apply andb_false_r.
Qed.

(** In a certified role, the bit of a table entry is set exactly when the
    OID of the entry is among the certificate's OIDs. *)
Lemma certified_covers_entry (oids : list ObjectIdentifier) :
  Forall
    (fun r =>
       Z.land (getRoleFromOIDs oids) (entry_role r) = entry_role r
       <-> entry_oid r ∈ oids)
    roleOID.
Proof.
  assert (Hbit : forall k oid,
             0 <= k ->
             existsb
               (fun r => bool_decide (entry_oid r ∈ oids) && Z.testbit (entry_role r) k)
               roleOID = bool_decide (oid ∈ oids) ->
             Z.land (getRoleFromOIDs oids) (2 ^ k) = 2 ^ k <-> oid ∈ oids).
  { intros k oid Hk Hex. rewrite land_bit_iff, getRoleFromOIDs_testbit, Hex by done.
    apply bool_decide_eq_true. }
  unfold roleOID. rewrite !Forall_cons. cbn [entry_role entry_oid].
  split_and!; [| | | | | |done].
  - apply (Hbit 2); [lia|]. simpl. by rewrite !andb_false_r, andb_true_r, !orb_false_r.
  - apply (Hbit 3); [lia|]. simpl. by rewrite !andb_false_r, andb_true_r, !orb_false_r.
  - apply (Hbit 1); [lia|]. simpl. by rewrite !andb_false_r, andb_true_r, !orb_false_r.
  - apply (Hbit 4); [lia|]. simpl. by rewrite !andb_false_r, andb_true_r, !orb_false_r.
  - apply (Hbit 0); [lia|]. simpl. by rewrite !andb_false_r, andb_true_r, !orb_false_r.
  - apply (Hbit 5); [lia|]. simpl. by rewrite !andb_false_r, andb_true_r, !orb_false_r.
Qed.

Lemma filter_fmap_entry_oid (P : ObjectIdentifier -> Prop)
    `{!forall oid, Decision (P oid)} (table : list roleOIDEntry) :
  filter P (entry_oid <$> table) = entry_oid <$> filter (fun r => P (entry_oid r)) table.
Proof.
  induction table as [|r t IH]; [done|].
  rewrite fmap_cons, !filter_cons, IH. by destruct (decide _).
Qed.

(** X3: the OIDs of a certified role are the table OIDs that occur in the
    certificate, in table order and once each, whatever the order,
    repetitions and foreign OIDs of the certificate. *)
Theorem getOIDsFromRole_of_certified (oids : list ObjectIdentifier) :
  fst (getOIDsFromRole (getRoleFromOIDs oids))
  = filter (fun oid => oid ∈ oids) knownOIDs.
Proof.
  rewrite getOIDsFromRole_fst, selectOIDs_filter. unfold knownOIDs.
  rewrite filter_fmap_entry_oid. f_equal.
  pose proof (certified_covers_entry oids) as Hcov.
  induction Hcov as [|r t Hr Ht IH]; [done|].
  rewrite !filter_cons, IH.
  destruct (decide (Z.land _ _ = _)), (decide (entry_oid r ∈ oids)); tauto.
Qed.

(** X4: the role certified by two lists of OIDs together is the union of
    the roles each certifies; so the order of the OIDs and their
    repetition are immaterial. *)
Theorem getRoleFromOIDs_app (oids1 oids2 : list ObjectIdentifier) :
  getRoleFromOIDs (oids1 ++ oids2)
  = Z.lor (getRoleFromOIDs oids1) (getRoleFromOIDs oids2)
  /\ getRoleFromOIDs (oids1 ++ oids2) = getRoleFromOIDs (oids2 ++ oids1)
  /\ getRoleFromOIDs (oids1 ++ oids1) = getRoleFromOIDs oids1.
Proof.
  assert (Happ : forall a b,
             getRoleFromOIDs (a ++ b)
             = Z.lor (getRoleFromOIDs a) (getRoleFromOIDs b)).
  { intros a b. apply Z.bits_inj. intros i.
    rewrite Z.lor_spec, !getRoleFromOIDs_testbit.
    induction roleOID as [|r t IH]; [done|]. simpl. rewrite IH.
    rewrite (bool_decide_ext _ (entry_oid r ∈ a \/ entry_oid r ∈ b))
      by apply elem_of_app.
    rewrite bool_decide_or.
    destruct (bool_decide (entry_oid r ∈ a)), (bool_decide (entry_oid r ∈ b)),
      (Z.testbit (entry_role r) i); simpl; try done;
      repeat (rewrite ?orb_true_r, ?orb_true_l; simpl); done. }
  split; [apply Happ|]. split.
  - by rewrite !Happ, Z.lor_comm.
  - by rewrite Happ, Z.lor_diag.
Qed.

(** ** More on [verifyRole] *)

(** X5: what [verifyRole] accepts on a connection is closed under
    taking part of a role and under union. *)
Theorem verifyRole_downward_and_union (conn : Conn) (role : Z) :
  verifyRole conn role = Returned (true, None) ->
  (forall part, Z.land part role = part ->
                verifyRole conn part = Returned (true, None))
  /\ (forall other, verifyRole conn other = Returned (true, None) ->
                    verifyRole conn (Z.lor role other) = Returned (true, None)).
Proof.
  destruct conn as [[[|cert0 certs]]|]; [done| |done].
  rewrite !verifyRole_tls.
  set (c := getRoleFromOIDs (UnknownExtKeyUsage cert0)).
  destruct (Z.eqb_spec (Z.land c role) role) as [Hrole|]; [intros _|done].
  split.
  - intros part Hpart. rewrite verifyRole_tls. fold c.
    replace (Z.land c part =? part) with true; [done|].
    symmetry. apply Z.eqb_eq.
    rewrite <- Hpart at 1. rewrite (Z.land_comm part role), Z.land_assoc, Hrole.
    by rewrite Z.land_comm.
  - intros other. rewrite !verifyRole_tls. fold c.
    destruct (Z.eqb_spec (Z.land c other) other) as [Hother|]; [intros _|done].
    replace (Z.land c (Z.lor role other) =? Z.lor role other) with true; [done|].
    symmetry. apply Z.eqb_eq. by rewrite Z.land_lor_distr_r, Hrole, Hother.
Qed.

(** X6: a declared role with a bit outside the six role bits is rejected
    on every TLS connection, whatever the certificate. *)
Theorem verifyRole_undefined_bit (cert0 : Certificate) (certs : list Certificate)
    (role : Z) :
  Z.land role 0x3f <> role ->
  verifyRole (TLSConn (mkConnectionState (cert0 :: certs))) role
  = Returned (false, Some oidError).
Proof.
  intros Hhigh. rewrite verifyRole_tls.
  destruct (Z.eqb_spec (Z.land (getRoleFromOIDs (UnknownExtKeyUsage cert0)) role) role)
    as [Hcov|]; [|done].
  destruct Hhigh. rewrite <- Hcov at 1.
  rewrite <- Z.land_assoc, (Z.land_comm role), Z.land_assoc, getRoleFromOIDs_low.
  exact Hcov.
Qed.

(** A declared role using bit 0x40. *)
Lemma verifyRole_undefined_bit_witness :
  verifyRole
    (TLSConn (mkConnectionState [mkCertificate knownOIDs])) (Z.lor AGENT 0x40)
  = Returned (false, Some oidError).
Proof.
  apply (verifyRole_undefined_bit (mkCertificate knownOIDs) [] (Z.lor AGENT 0x40)).
  vm_compute. discriminate.
Defined.

(** A certificate with the agent, networking agent and scheduler OIDs
    accepts AGENT|NETAGENT, hence each of the two and their union with
    SCHEDULER. *)
Lemma verifyRole_downward_and_union_witness :
  let conn :=
    TLSConn (mkConnectionState
               [mkCertificate [RoleAgentOID; RoleNetAgentOID; RoleSchedulerOID]]) in
  verifyRole conn NETAGENT = Returned (true, None)
  /\ verifyRole conn (Z.lor (Z.lor AGENT NETAGENT) SCHEDULER) = Returned (true, None).
Proof.
  intros conn.
  destruct (verifyRole_downward_and_union conn (Z.lor AGENT NETAGENT)) as [Hpart Hunion];
    [reflexivity|].
  split.
  - apply Hpart. reflexivity.
  - apply Hunion. reflexivity.
Defined.

(** X7: a certificate that carries the OIDs [getOIDsFromRole] gives for
    [role] lets a peer declare exactly the roles covered by the six role
    bits of [role]. *)
Theorem verifyRole_certificate_for_role (role declared : Z)
    (certs : list Certificate) :
  verifyRole
    (TLSConn (mkConnectionState
                (mkCertificate (fst (getOIDsFromRole role)) :: certs)))
    declared
  = Returned (true, None)
  <-> Z.land declared (Z.land role 0x3f) = declared.
Proof.
  rewrite verifyRole_tls. cbn [UnknownExtKeyUsage].
  assert (Hcert : getRoleFromOIDs (fst (getOIDsFromRole role)) = Z.land role 0x3f).
  { rewrite getOIDsFromRole_fst, <- selectOIDs_low by apply roleOID_roles_low.
    rewrite <- getOIDsFromRole_fst.
    apply roundtrip_low, low_range, land_low_idem. }
  rewrite Hcert, (Z.land_comm declared).
  destruct (Z.eqb_spec (Z.land (Z.land role 0x3f) declared) declared);
    split; (done || congruence).
Qed.

(** ** More on [parseCertificate] *)

Section ParseCertificateMore.

Variable ioutil_ReadFile : string -> list byte * option error.
Variable pem_Decode : list byte -> option Block * list byte.
Variable x509_ParseCertificates : list byte -> list Certificate * option error.

(** X8: whatever the file holds, when [parseCertificate] returns, the
    error is nil exactly when the role is not UNKNOWN, and the role has
    no bit outside the six role bits. *)
Theorem parseCertificate_returned config role err :
  parseCertificate ioutil_ReadFile pem_Decode x509_ParseCertificates config
  = Returned (role, err) ->
  (err = None <-> role <> UNKNOWN) /\ Z.land role 0x3f = role.
Proof.
  unfold parseCertificate.
  destruct (ioutil_ReadFile (Cert config)) as [certPEM [e|]]; [done|].
  destruct (pem_Decode certPEM) as [[block|] rest]; [|done].
  destruct (x509_ParseCertificates (Bytes block)) as [[|cert0 certs] [e|]];
    try done.
  - intros [= <- <-]. split; [|done]. split; [done|]. by intros [].
  - intros [= <- <-]. split; [|done]. split; [done|]. by intros [].
  - pose proof (getRoleFromOIDs_low (UnknownExtKeyUsage cert0)) as Hlow.
    destruct (Z.eqb_spec (getRoleFromOIDs (UnknownExtKeyUsage cert0)) UNKNOWN)
      as [Heq|Hne]; intros [= <- <-]; (split; [|done]).
    + split; [done|]. by intros [].
    + done.
Qed.

(** X9: the role [parseCertificate] derives from a certificate is
    accepted by [verifyRole] on a connection whose peer presents that
    certificate, and so is every part of it. *)
Theorem parseCertificate_role_verifies config certPEM block rest cert0 certs
    role part peers :
  ioutil_ReadFile (Cert config) = (certPEM, None) ->
  pem_Decode certPEM = (Some block, rest) ->
  x509_ParseCertificates (Bytes block) = (cert0 :: certs, None) ->
  parseCertificate ioutil_ReadFile pem_Decode x509_ParseCertificates config
  = Returned (role, None) ->
  Z.land part role = part ->
  verifyRole (TLSConn (mkConnectionState (cert0 :: peers))) part
  = Returned (true, None).
Proof.
  unfold parseCertificate. intros -> -> ->.
  destruct (_ =? UNKNOWN); intros [= <-]. intros Hpart.
  rewrite verifyRole_tls, Z.land_comm, Hpart. by rewrite Z.eqb_refl.
Qed.

End ParseCertificateMore.

(** A server certificate with the server and scheduler OIDs. *)
Lemma parseCertificate_returned_witness :
  let cert := mkCertificate [RoleServerOID; RoleSchedulerOID] in
  let config := mkConfig "" "" UNKNOWN defaultCA defaultServerCert "tcp" true 8888 in
  let run :=
    parseCertificate (fun _ => ([], None)) (fun bs => (Some (mkBlock bs), []))
      (fun _ => ([cert], None)) config in
  run = Returned (Z.lor SERVER SCHEDULER, None)
  /\ (@None error = None <-> Z.lor SERVER SCHEDULER <> UNKNOWN).
Proof.
  intros cert config run.
  assert (Hrun : run = Returned (Z.lor SERVER SCHEDULER, None)) by reflexivity.
  split; [exact Hrun|].
  exact (proj1 (parseCertificate_returned _ _ _ config _ _ Hrun)).
Defined.

Lemma parseCertificate_role_verifies_witness :
  let cert := mkCertificate [RoleServerOID; RoleSchedulerOID] in
  verifyRole (TLSConn (mkConnectionState [cert])) SCHEDULER = Returned (true, None).
Proof.
  intros cert.
  apply (parseCertificate_role_verifies
           (fun _ => ([], None)) (fun bs => (Some (mkBlock bs), []))
           (fun _ => ([cert], None))
           (mkConfig "" "" UNKNOWN defaultCA defaultServerCert "tcp" true 8888)
           [] (mkBlock []) [] cert [] (Z.lor SERVER SCHEDULER) SCHEDULER []);
    reflexivity.
Defined.

(** ** Names of frame types and operands *)

Lemma names_lookup_range (names : list string) (v : Z) :
  "" ∉ names ->
  names_lookup names v = "" <-> ~ (0 <= v < Z.of_nat (length names)).
Proof.
  intros Hne. unfold names_lookup. destruct (Z.ltb_spec v 0) as [Hneg|Hpos].
  - split; [lia|done].
  - destruct (decide (Z.to_nat v < length names)%nat) as [Hlt|Hge].
    + split; [|lia]. intros Hnth. destruct Hne.
      rewrite <- Hnth. apply list_elem_of_In, nth_In. lia.
    + split; [lia|]. intros _. apply nth_overflow. lia.
Qed.

Lemma names_lookup_inj (names : list string) (a b : Z) :
  NoDup names -> "" ∉ names ->
  names_lookup names a = names_lookup names b ->
  names_lookup names a <> "" ->
  a = b.
Proof.
  intros Hnd Hne Heq Ha.
  assert (Hb : names_lookup names b <> "") by congruence.
  rewrite names_lookup_range in Ha, Hb by done.
  assert (Hra : 0 <= a < Z.of_nat (length names)) by lia.
  assert (Hrb : 0 <= b < Z.of_nat (length names)) by lia.
  unfold names_lookup in Heq.
  destruct (Z.ltb_spec a 0); [lia|]. destruct (Z.ltb_spec b 0); [lia|].
  apply NoDup_ListNoDup in Hnd.
  assert (Z.to_nat a = Z.to_nat b); [|lia].
  apply (proj1 (NoDup_nth names "") Hnd); [lia|lia|done].
Qed.

(** Each [switch] is a lookup of the value in the list of names. *)
Ltac switch_is_lookup v :=
  repeat match goal with
         | |- context [v =? ?c] =>
             destruct (Z.eqb_spec v c) as [->|?]; [reflexivity|]
         end;
  unfold names_lookup; destruct (Z.ltb_spec v 0); [done|];
  symmetry; apply nth_overflow; simpl; lia.

Lemma Type_String_lookup (t : Z) : Type_String t = names_lookup TypeNames t.
Proof.
  unfold Type_String, COMMAND, STATUS, EVENT, ERROR. switch_is_lookup t.
Qed.

Lemma Command_String_lookup (c : Z) : Command_String c = names_lookup CommandNames c.
Proof.
  unfold Command_String, CONNECT, START, STOP, STATS, EVACUATE, DELETE, RESTART,
    AssignPublicIP, ReleasePublicIP, CONFIGURE.
  switch_is_lookup c.
Qed.

Lemma Status_String_lookup (s : Z) : Status_String s = names_lookup StatusNames s.
Proof.
  unfold Status_String, CONNECTED, READY, FULL, OFFLINE, MAINTENANCE.
  switch_is_lookup s.
Qed.

Lemma Event_String_lookup (e : Z) : Event_String e = names_lookup EventNames e.
Proof.
  unfold Event_String, TenantAdded, TenantRemoved, InstanceDeleted,
    ConcentratorInstanceAdded, PublicIPAssigned, TraceReport, NodeConnected,
    NodeDisconnected.
  switch_is_lookup e.
Qed.

Lemma Error_String_lookup (e : Z) : Error_String e = names_lookup ErrorNames e.
Proof.
  unfold Error_String, InvalidFrameType, StartFailure, StopFailure,
    ConnectionFailure, RestartFailure, DeleteFailure, ConnectionAborted,
    InvalidConfiguration.
  switch_is_lookup e.
Qed.

Lemma names_well_formed :
  Forall (fun names => NoDup names /\ "" ∉ names)
    [TypeNames; CommandNames; StatusNames; EventNames; ErrorNames].
Proof.
  rewrite !Forall_cons.
  split_and!; try done; apply (bool_decide_unpack _); by vm_compute.
Qed.

(** X10: the name of a frame type or operand is the empty string exactly
    when the value is outside the enumeration: types above EVENT (3),
    commands above CONFIGURE (9), statuses above MAINTENANCE (4), events
    above NodeDisconnected (7), errors above InvalidConfiguration (7). *)
Theorem operand_name_empty_iff (v : Z) :
  (Type_String v = "" <-> ~ (0 <= v <= EVENT))
  /\ (Command_String v = "" <-> ~ (0 <= v <= CONFIGURE))
  /\ (Status_String v = "" <-> ~ (0 <= v <= MAINTENANCE))
  /\ (Event_String v = "" <-> ~ (0 <= v <= NodeDisconnected))
  /\ (Error_String v = "" <-> ~ (0 <= v <= InvalidConfiguration)).
Proof.
  pose proof names_well_formed as Hwf. rewrite !Forall_cons in Hwf.
  destruct Hwf as ([_ Ht] & [_ Hc] & [_ Hs] & [_ Hev] & [_ Her] & _).
  rewrite Type_String_lookup, Command_String_lookup, Status_String_lookup,
    Event_String_lookup, Error_String_lookup.
  rewrite !names_lookup_range by done.
  unfold EVENT, CONFIGURE, MAINTENANCE, NodeDisconnected, InvalidConfiguration.
  simpl. lia.
Qed.

(** X11: within each enumeration two values with the same non-empty
    name are the same value. *)
Theorem operand_name_injective (a b : Z) :
  (Type_String a = Type_String b -> Type_String a <> "" -> a = b)
  /\ (Command_String a = Command_String b -> Command_String a <> "" -> a = b)
  /\ (Status_String a = Status_String b -> Status_String a <> "" -> a = b)
  /\ (Event_String a = Event_String b -> Event_String a <> "" -> a = b)
  /\ (Error_String a = Error_String b -> Error_String a <> "" -> a = b).
Proof.
  pose proof names_well_formed as Hwf. rewrite !Forall_cons in Hwf.
  destruct Hwf as ([? ?] & [? ?] & [? ?] & [? ?] & [? ?] & _).
  rewrite !Type_String_lookup, !Command_String_lookup, !Status_String_lookup,
    !Event_String_lookup, !Error_String_lookup.
  split_and!; by apply names_lookup_inj.
Qed.

(** STATS is the one command whose name is not its identifier. *)
Lemma operand_name_injective_witness :
  Command_String STATS = "STATISTICS" /\ (STATS = 3).
Proof.
  split; [reflexivity|].
  apply (proj1 (proj2 (operand_name_injective STATS 3))); [reflexivity|discriminate].
Defined.

(** ** Roles as text *)

(** [Role.String] looks at the six role bits only. *)
Lemma Role_String_low (role : Z) :
  Role_String (Z.land role 0x3f) = Role_String role.
Proof.
  unfold Role_String.
  by rewrite !land_low_bits by reflexivity.
Qed.

(** X12: the text of a role is empty exactly when none of the six role
    bits is set, which is when [getOIDsFromRole] reports an error. *)
Theorem Role_String_empty_iff (role : Z) :
  (Role_String role = "" <-> Z.land role 0x3f = UNKNOWN)
  /\ (Role_String role = "" <-> snd (getOIDsFromRole role) <> None).
Proof.
  assert (Hempty : Role_String role = "" <-> Z.land role 0x3f = UNKNOWN).
  { rewrite <- Role_String_low.
    pose proof (low_range _ (land_low_idem role)) as Hrange.
    assert (Hall : forallb
              (fun r => eqb (String.eqb (Role_String r) "") (r =? UNKNOWN))
              (seqZ 0 64) = true) by (vm_compute; reflexivity).
    rewrite forallb_forall in Hall.
    specialize (Hall (Z.land role 0x3f)).
    rewrite <- list_elem_of_In, elem_of_seqZ in Hall.
    specialize (Hall ltac:(lia)). apply eqb_prop in Hall.
    rewrite <- String.eqb_eq, Hall. apply Z.eqb_eq. }
  split; [done|]. rewrite Hempty.
  assert (Herr : snd (getOIDsFromRole role) = None <-> Z.land role 0x3f <> UNKNOWN).
  { rewrite getOIDsFromRole_snd, <- selectOIDs_low by apply roleOID_roles_low.
    rewrite <- getOIDsFromRole_snd.
    apply roundtrip_low, low_range, land_low_idem. }
  destruct (decide (Z.land role 0x3f = UNKNOWN)) as [Hz|Hz].
  - split; [|done]. intros _ Hnone. by apply Herr in Hnone.
  - split; [done|]. intros Hsome. destruct Hsome. by apply Herr.
Qed.

(** X13: two roles have the same text exactly when they agree on the six
    role bits. *)
Theorem Role_String_eq_iff (role1 role2 : Z) :
  Role_String role1 = Role_String role2
  <-> Z.land role1 0x3f = Z.land role2 0x3f.
Proof.
  rewrite <- (Role_String_low role1), <- (Role_String_low role2).
  pose proof (low_range _ (land_low_idem role1)) as Hr1.
  pose proof (low_range _ (land_low_idem role2)) as Hr2.
  assert (Hall : forallb
            (fun a =>
               forallb
                 (fun b => eqb (String.eqb (Role_String a) (Role_String b)) (a =? b))
                 (seqZ 0 64))
            (seqZ 0 64) = true) by (vm_compute; reflexivity).
  rewrite forallb_forall in Hall.
  specialize (Hall (Z.land role1 0x3f)).
  rewrite <- list_elem_of_In, elem_of_seqZ in Hall.
  specialize (Hall ltac:(lia)). rewrite forallb_forall in Hall.
  specialize (Hall (Z.land role2 0x3f)).
  rewrite <- list_elem_of_In, elem_of_seqZ in Hall.
  specialize (Hall ltac:(lia)). apply eqb_prop in Hall.
  rewrite <- String.eqb_eq, Hall. apply Z.eqb_eq.
Qed.

(** ** [strings.Split] as modelled *)

Lemma strings_Split_nonempty (s : string) (sep : ascii) : strings_Split s sep <> [].
Proof.
  destruct s as [|c rest]; simpl; [done|].
  destruct (Ascii.eqb c sep); [done|]. by destruct (strings_Split rest sep).
Qed.

Lemma join_with_cons (sep : ascii) (piece : string) (pieces : list string) :
  pieces <> [] ->
  join_with sep (piece :: pieces) = piece +:+ String sep (join_with sep pieces).
Proof. by destruct pieces. Qed.

(** Joining the pieces with the separator gives the string back. *)
Lemma strings_Split_join (s : string) (sep : ascii) :
  join_with sep (strings_Split s sep) = s.
Proof.
  induction s as [|c rest IH]; [done|].
  cbn [strings_Split]. pose proof (strings_Split_nonempty rest sep) as Hne.
  destruct (Ascii.eqb_spec c sep) as [->|Hc].
  - rewrite join_with_cons, IH by done. done.
  - destruct (strings_Split rest sep) as [|piece pieces]; [done|].
    destruct pieces as [|piece' pieces].
    + cbn [join_with] in *. by rewrite IH.
    + rewrite join_with_cons in * by done. by rewrite <- IH.
Qed.

(** ** [Role.Set] *)

Lemma Role_Set_loop_spec (pieces : list string) (role : Z) :
  Role_Set_loop pieces role
  = (if forallb (fun r => bool_decide (is_Some (roleOfName r))) pieces
     then None else Some (ErrorString "Unknown role"),
     Z.lor role (unionOfRoles (knownPrefix pieces))).
Proof.
  revert role. induction pieces as [|r pieces IH]; intros role.
  - simpl. by rewrite Z.lor_0_r.
  - cbn [Role_Set_loop knownPrefix forallb]. unfold roleOfName.
    repeat (destruct (String.eqb r _);
            [rewrite IH; cbn [unionOfRoles foldr]; fold (unionOfRoles (knownPrefix pieces));
             rewrite Z.lor_assoc; reflexivity|]).
    simpl. by rewrite Z.lor_0_r.
Qed.

(** X14: [Role.Set] succeeds exactly when every comma-separated piece of
    the value is one of the seven role names; the role it leaves is the
    old role with the roles of the pieces before the first unknown piece
    or-ed in, so a failing call may already have changed it. *)
Theorem Role_Set_spec (value : string) (role : Z) :
  let pieces := strings_Split value comma in
  snd (Role_Set value role) = Z.lor role (unionOfRoles (knownPrefix pieces))
  /\ (fst (Role_Set value role) = None
      <-> Forall (fun r => is_Some (roleOfName r)) pieces)
  /\ (fst (Role_Set value role) <> None
      <-> fst (Role_Set value role) = Some (ErrorString "Unknown role")).
Proof.
  intros pieces. unfold Role_Set. fold pieces. rewrite Role_Set_loop_spec.
  cbn [fst snd]. split; [done|].
  destruct (forallb _ pieces) eqn:Hall.
  - split; [|split; [done|discriminate]]. split; [intros _|done].
    rewrite forallb_forall in Hall. apply Forall_forall. intros r Hr.
    apply list_elem_of_In, Hall in Hr. by apply bool_decide_eq_true in Hr.
  - split; [|done]. split; [discriminate|]. intros HF.
    assert (forallb (fun r => bool_decide (is_Some (roleOfName r))) pieces = true);
      [|congruence].
    apply forallb_forall. intros r Hr. apply bool_decide_eq_true.
    rewrite Forall_forall in HF. by apply HF, list_elem_of_In.
Qed.

Lemma unionOfRoles_knownPrefix_low (pieces : list string) :
  Z.land (unionOfRoles (knownPrefix pieces)) 0x3f = unionOfRoles (knownPrefix pieces).
Proof.
  induction pieces as [|r pieces IH]; [done|].
  cbn [knownPrefix]. unfold roleOfName.
  repeat (destruct (String.eqb r _);
          [cbn [unionOfRoles foldr]; fold (unionOfRoles (knownPrefix pieces));
           by rewrite Z.land_lor_distr_l, IH|]).
  done.
Qed.

(** X15: [Role.Set] never clears a bit of the role, whether it succeeds
    or fails, and sets no bit outside the six role bits. *)
Theorem Role_Set_only_adds_role_bits (value : string) (role : Z) :
  Z.land role (snd (Role_Set value role)) = role
  /\ Z.land (snd (Role_Set value role)) (Z.lnot 0x3f) = Z.land role (Z.lnot 0x3f).
Proof.
  unfold Role_Set. rewrite Role_Set_loop_spec. cbn [snd].
  set (u := unionOfRoles (knownPrefix _)).
  assert (Hu : Z.land u 0x3f = u) by apply unionOfRoles_knownPrefix_low.
  split.
  - apply Z.bits_inj. intros i. rewrite Z.land_spec, Z.lor_spec.
    by destruct (Z.testbit role i), (Z.testbit u i).
  - rewrite Z.land_lor_distr_l. rewrite <- Hu at 1.
    rewrite <- Z.land_assoc, Z.land_lnot_diag, Z.land_0_r. apply Z.lor_0_r.
Qed.

(** X16: a value with an empty piece, such as the empty string or one
    that ends in a comma, is refused, with the role names before the
    empty piece already applied. *)
Theorem Role_Set_empty_piece (value : string) (role : Z) :
  "" ∈ strings_Split value comma ->
  fst (Role_Set value role) = Some (ErrorString "Unknown role").
Proof.
  intros Hin. unfold Role_Set. rewrite Role_Set_loop_spec. cbn [fst].
  destruct (forallb _ _) eqn:Hall; [|done].
  rewrite forallb_forall in Hall. apply list_elem_of_In, Hall in Hin.
  apply bool_decide_eq_true in Hin. by destruct Hin.
Qed.

(** The empty value, and a value that ends in a comma. *)
Lemma Role_Set_empty_piece_witness :
  fst (Role_Set "" AGENT) = Some (ErrorString "Unknown role")
  /\ Role_Set "agent,scheduler," UNKNOWN
     = (Some (ErrorString "Unknown role"), Z.lor AGENT SCHEDULER).
Proof.
  split.
  - apply (Role_Set_empty_piece "" AGENT).
    apply (bool_decide_unpack _). vm_compute. exact I.
  - assert (H : fst (Role_Set "agent,scheduler," UNKNOWN)
                = Some (ErrorString "Unknown role")).
    { apply (Role_Set_empty_piece "agent,scheduler," UNKNOWN).
      apply (bool_decide_unpack _). vm_compute. exact I. }
    rewrite (surjective_pairing (Role_Set _ _)), H. reflexivity.
Defined.

(** ** More on the identity store *)

Section FlockConflicts.

Context {UUID : Type}.
Implicit Types (w : World UUID).

Lemma conflict_false_inv w fd path :
  flock_conflict w fd path = false ->
  (path ∉ foreign_flocks (host w))
  /\ (forall k d, fdtable w !! k = Some d -> k <> fd -> of_path d = path ->
                  of_flock d = false).
Proof.
  unfold flock_conflict. intros Hc. apply orb_false_iff in Hc as [Hforeign Hown].
  split; [by apply bool_decide_eq_false in Hforeign|].
  intros k d Hk Hne Hpath. apply not_true_is_false. intros Hheld.
  assert (Hex : existsb
            (fun e : Z * OpenFile =>
               negb (fst e =? fd) && bool_decide (of_path (snd e) = path)
               && of_flock (snd e))
            (map_to_list (fdtable w)) = true); [|congruence].
  apply existsb_exists. exists (k, d). split.
  - by apply list_elem_of_In, elem_of_map_to_list.
  - cbn [fst snd]. rewrite Hheld, bool_decide_eq_true_2 by done.
    apply Z.eqb_neq in Hne. by rewrite Hne.
Qed.

Lemma conflict_true_inv w fd path :
  flock_conflict w fd path = true ->
  (path ∈ foreign_flocks (host w))
  \/ (exists k d, fdtable w !! k = Some d /\ k <> fd /\ of_path d = path
                  /\ of_flock d = true).
Proof.
  unfold flock_conflict. intros Hc. apply orb_true_iff in Hc as [Hforeign|Hown].
  - left. by apply bool_decide_eq_true in Hforeign.
  - right. apply existsb_exists in Hown as ([k d] & Hin & Hb). cbn [fst snd] in Hb.
    apply list_elem_of_In, elem_of_map_to_list in Hin.
    apply andb_true_iff in Hb as [Hb Hheld].
    apply andb_true_iff in Hb as [Hne Hpath].
    apply negb_true_iff, Z.eqb_neq in Hne. apply bool_decide_eq_true in Hpath.
    by exists k, d.
Qed.

End FlockConflicts.

Section StoreOutcomes.

Context {UUID : Type}.
Variable uuid_Parse : string -> UUID * option error.
Variable uuid_String : UUID -> string.
Implicit Types (w : World UUID) (lu nUUID randomUUID : lockedUUID UUID).

(** Every way out of [readOrCreateUUID]: an error with the lock
    descriptor closed and the file as it was, a new UUID appended to a
    file of fewer than 36 bytes, or the UUID parsed from the first 36
    bytes. *)
Lemma readOrCreateUUID_outcomes nUUID fd lfd p held w res w' :
  fdtable w !! fd = Some (mkOpenFile p 0 held) -> fd <> lfd ->
  readOrCreateUUID uuid_Parse uuid_String nUUID fd lfd w = (res, w') ->
  let content := default [] (files w !! p) in
  let new := entropy (host w) (drawn w) in
  host w' = host w
  /\ (((exists e, res = (nUUID, Some e))
       /\ (read_fault (host w) p <> None
           \/ ((length content < 36)%nat /\ write_fault (host w) p <> None)
           \/ ((36 <= length content)%nat
               /\ snd (uuid_Parse (string_of_list_byte (take 36 content))) <> None))
       /\ delete fd (fdtable w') = delete fd (delete lfd (fdtable w))
       /\ files w' = files w
       /\ (drawn w <= drawn w' <= S (drawn w))%nat)
      \/ (res = (mkLockedUUID lfd new, None)
          /\ delete fd (fdtable w') = delete fd (fdtable w)
          /\ (length content < 36)%nat
          /\ files w'
             = <[p := content ++ list_byte_of_string (uuid_String new)]> (files w)
          /\ drawn w' = S (drawn w))
      \/ (exists u,
            res = (mkLockedUUID lfd u, None)
            /\ delete fd (fdtable w') = delete fd (fdtable w)
            /\ (36 <= length content)%nat
            /\ uuid_Parse (string_of_list_byte (take 36 content)) = (u, None)
            /\ files w' = files w
            /\ drawn w' = drawn w)).
Proof.
  intros Hfd Hne Hrun content new.
  destruct (decide (length content < 36)%nat) as [Hshort|Hlong].
  - destruct (read_fault (host w) p) as [e|] eqn:Hread.
    + unfold readOrCreateUUID in Hrun.
      destruct (syscall_Read fd _ w) as [[[n buf] err] w1] eqn:Hr.
      apply (syscall_Read_inv _ _ _ _ _ _ _ _ Hfd) in Hr.
      cbn [of_path] in Hr. rewrite Hread in Hr. destruct Hr as [-> ->].
      rewrite (surjective_pairing (syscall_Close lfd w)) in Hrun.
      injection Hrun as <- <-. rewrite syscall_Close_world. cbn.
      split; [done|]. left. split; [by eexists|]. split; [by left|].
      split; [done|]. split; [done|lia].
    + destruct (write_fault (host w) p) as [e|] eqn:Hwrite.
      * unfold readOrCreateUUID in Hrun.
        destruct (syscall_Read fd _ w) as [[[n buf] err] w1] eqn:Hr.
        apply (syscall_Read_inv _ _ _ _ _ _ _ _ Hfd) in Hr.
        cbn [of_path of_offset of_flock] in Hr. cbv zeta in Hr.
        rewrite Hread in Hr. fold content in Hr.
        rewrite drop_0, length_replicate in Hr.
        rewrite (take_ge content) in Hr by lia.
        destruct Hr as (-> & -> & -> & ->).
        replace ((Z.of_nat (length content) =? 0)
                 || negb (Z.of_nat (length content) =? 36)) with true in Hrun.
        2:{ symmetry. apply orb_true_iff. right. apply negb_true_iff, Z.eqb_neq. lia. }
        unfold uuid_Generate in Hrun. cbn [host drawn with_drawn] in Hrun.
        destruct (syscall_Write fd _ _) as [[m err] w2] eqn:Hw.
        eapply syscall_Write_inv in Hw; [|cbn [fdtable]; apply lookup_insert_eq].
        cbn [of_path of_offset of_flock host files fdtable drawn with_drawn] in Hw.
        rewrite Hwrite in Hw. destruct Hw as [-> ->].
        rewrite (surjective_pairing (syscall_Close lfd _)) in Hrun.
        injection Hrun as <- <-. rewrite syscall_Close_world. cbn.
        split; [done|]. left. split; [by eexists|].
        split; [right; left; done|].
        split; [table_eq fd lfd|]. split; [done|lia].
      * rewrite (readOrCreateUUID_short _ _ _ _ _ _ _ _ Hfd) in Hrun by done.
        injection Hrun as <- <-. cbn. split; [done|]. right. left.
        split; [done|]. split; [table_eq fd lfd|]. done.
  - destruct (read_fault (host w) p) as [e|] eqn:Hread.
    + unfold readOrCreateUUID in Hrun.
      destruct (syscall_Read fd _ w) as [[[n buf] err] w1] eqn:Hr.
      apply (syscall_Read_inv _ _ _ _ _ _ _ _ Hfd) in Hr.
      cbn [of_path] in Hr. rewrite Hread in Hr. destruct Hr as [-> ->].
      rewrite (surjective_pairing (syscall_Close lfd w)) in Hrun.
      injection Hrun as <- <-. rewrite syscall_Close_world. cbn.
      split; [done|]. left. split; [by eexists|]. split; [by left|].
      split; [done|]. split; [done|lia].
    + destruct (uuid_Parse (string_of_list_byte (take 36 content)))
        as [u [e|]] eqn:Hparse.
      * unfold readOrCreateUUID in Hrun.
        destruct (syscall_Read fd _ w) as [[[n buf] err] w1] eqn:Hr.
        apply (syscall_Read_inv _ _ _ _ _ _ _ _ Hfd) in Hr.
        cbn [of_path of_offset of_flock] in Hr. cbv zeta in Hr.
        rewrite Hread in Hr. fold content in Hr.
        rewrite drop_0, length_replicate in Hr.
        rewrite length_take_le in Hr by lia.
        destruct Hr as (-> & -> & -> & ->).
        change ((Z.of_nat 36 =? 0) || negb (Z.of_nat 36 =? 36)) with false in Hrun.
        cbv iota in Hrun. change (Z.of_nat 36 =? 36) with true in Hrun.
        cbv iota in Hrun.
        rewrite drop_ge in Hrun by (rewrite length_replicate; lia).
        rewrite app_nil_r, take_take in Hrun.
        change (36 `min` 36)%nat with 36%nat in Hrun. rewrite Hparse in Hrun.
        rewrite (surjective_pairing (syscall_Close lfd _)) in Hrun.
        injection Hrun as <- <-. rewrite syscall_Close_world. cbn.
        split; [done|]. left. split; [by eexists|].
        split; [right; right; split; [lia|done]|].
        split; [table_eq fd lfd|]. split; [done|lia].
      * rewrite (readOrCreateUUID_stored _ _ _ _ _ _ _ _ u Hfd) in Hrun
          by (done || (fold content; lia)).
        injection Hrun as <- <-. cbn. split; [done|]. right. right.
        exists u. split; [done|]. split; [table_eq fd lfd|].
        split; [lia|]. done.
Qed.

(** Every way out of [newUUID]: an error, the random UUID without a
    lock, or a UUID with the lock held through a new descriptor. *)
Lemma newUUID_outcomes prefix role w res w' :
  newUUID uuid_Parse uuid_String prefix role w = (res, w') ->
  let uuidFile := uuidFilePath prefix role in
  let lockFile := uuidLockFilePath prefix role in
  let content := default [] (files w !! uuidFile) in
  let f1 := create_if_missing uuidFile (files w) in
  let f2 := create_if_missing lockFile f1 in
  let new := entropy (host w) (S (drawn w)) in
  host w' = host w
  /\ (((exists e, res = (mkLockedUUID (-1) (fst (uuid_Parse nullUUID)), Some e))
       /\ (mkdir_fault (host w) uuidLockPrefix <> None
           \/ open_fault (host w) uuidFile <> None
           \/ open_fault (host w) lockFile <> None
           \/ (~ lockedElsewhere w lockFile
               /\ (read_fault (host w) uuidFile <> None
                   \/ ((length content < 36)%nat
                       /\ write_fault (host w) uuidFile <> None)
                   \/ ((36 <= length content)%nat
                       /\ snd (uuid_Parse (string_of_list_byte (take 36 content)))
                          <> None))))
       /\ fdtable w' = fdtable w
       /\ (files w' = files w \/ files w' = f1 \/ files w' = f2)
       /\ (S (drawn w) <= drawn w' <= S (S (drawn w)))%nat)
      \/ (res = (mkLockedUUID (-1) (entropy (host w) (drawn w)), None)
          /\ lockedElsewhere w lockFile
          /\ fdtable w' = fdtable w
          /\ files w' = f2
          /\ drawn w' = S (drawn w))
      \/ (exists lfd,
            0 <= lfd /\ fdtable w !! lfd = None
            /\ ~ lockedElsewhere w lockFile
            /\ fdtable w' = <[lfd := mkOpenFile lockFile 0 true]> (fdtable w)
            /\ ((res = (mkLockedUUID lfd new, None)
                 /\ (length content < 36)%nat
                 /\ files w'
                    = <[uuidFile := content ++ list_byte_of_string (uuid_String new)]> f2
                 /\ drawn w' = S (S (drawn w)))
                \/ (exists u,
                      res = (mkLockedUUID lfd u, None)
                      /\ (36 <= length content)%nat
                      /\ uuid_Parse (string_of_list_byte (take 36 content)) = (u, None)
                      /\ files w' = f2
                      /\ drawn w' = S (drawn w))))).
Proof.
  intros Hrun uuidFile lockFile content f1 f2 new. revert Hrun.
  unfold newUUID, uuid_Generate, os_MkdirAll. cbv zeta. cbn [fst snd].
  change (host (with_drawn (S (drawn w)) w)) with (host w).
  fold uuidFile lockFile.
  destruct (mkdir_fault (host w) uuidLockPrefix) eqn:Hmk.
  { intros [= <- <-]. split; [done|]. left. cbn.
    split; [by eexists|]. split; [by left|]. split; [done|]. split; [by left|lia]. }
  destruct (syscall_Open uuidFile _) as [[fd err] w1] eqn:Hopen.
  apply syscall_Open_inv in Hopen. cbn [host fdtable files drawn with_drawn] in Hopen.
  destruct (open_fault (host w) uuidFile) eqn:Ho1.
  { destruct Hopen as (-> & -> & ->). intros [= <- <-]. split; [done|]. left. cbn.
    split; [by eexists|]. split; [right; by left|].
    split; [done|]. split; [by left|lia]. }
  destruct Hopen as (-> & Hpos & Hfresh & ->). fold f1.
  unfold lockAndRead.
  destruct (syscall_Open lockFile _) as [[lfd err] w2] eqn:Hopen2.
  apply syscall_Open_inv in Hopen2. cbn [host fdtable files drawn] in Hopen2.
  destruct (open_fault (host w) lockFile) eqn:Ho2.
  { destruct Hopen2 as (-> & -> & ->).
    rewrite (surjective_pairing (syscall_Close fd _)). intros [= <- <-].
    rewrite syscall_Close_world. cbn. split; [done|]. left.
    split; [by eexists|]. split; [right; right; by left|]. split.
    - rewrite delete_insert_eq. by apply delete_id.
    - split; [right; by left|lia]. }
  destruct Hopen2 as (-> & Hpos2 & Hfresh2 & ->). fold f2.
  assert (Hne : fd <> lfd) by (intros ->; by rewrite lookup_insert_eq in Hfresh2).
  rewrite lookup_insert_ne in Hfresh2 by done.
  destruct (syscall_Flock lfd _ _) as [err w3] eqn:Hflock.
  eapply syscall_Flock_lock_inv in Hflock; [|cbn [fdtable]; apply lookup_insert_eq].
  cbn [of_path of_flock of_offset host files fdtable drawn] in Hflock.
  destruct Hflock as [(-> & [?|Hfree] & ->)|(-> & _ & Hbusy & ->)]; [done| |].
  - assert (Hnot : ~ lockedElsewhere w lockFile).
    { apply conflict_false_inv in Hfree as [Hforeign Hown].
      cbn [host fdtable] in Hforeign, Hown.
      intros [Hin|(k & d & Hk & Hpath & Hheld)]; [done|].
      assert (k <> lfd) by congruence. assert (k <> fd) by congruence.
      rewrite (Hown k d) in Hheld; [done| |done|done].
      by rewrite !lookup_insert_ne. }
    rewrite insert_insert_eq.
    destruct (readOrCreateUUID _ _ _ _ _ _) as [res3 w3] eqn:Hread.
    rewrite (surjective_pairing (syscall_Close fd w3)). intros [= <- <-].
    eapply (readOrCreateUUID_outcomes _ fd lfd uuidFile false) in Hread;
      [|cbn [fdtable]; by rewrite lookup_insert_ne, lookup_insert_eq|done].
    cbn [host files fdtable drawn] in Hread.
    unfold f2, f1 in Hread. rewrite !create_if_missing_content in Hread.
    fold f1 in Hread. fold f2 in Hread. fold content in Hread. fold new in Hread.
    rewrite syscall_Close_world. cbn [host files fdtable drawn].
    destruct Hread as (Hhost & [(Herr & Hcause & Htab & Hfiles & Hdrawn)
                               |[(-> & Htab & Hshort & Hfiles & Hdrawn)
                                |(u & -> & Htab & Hlong & Hparse & Hfiles & Hdrawn)]]).
    + split; [done|]. left. split; [done|].
      split; [right; right; right; done|]. split.
      * rewrite Htab. table_eq fd lfd.
      * split; [right; by right|lia].
    + split; [done|]. right. right. exists lfd.
      split; [done|]. split; [done|]. split; [done|].
      split; [rewrite Htab; table_eq fd lfd|].
      left. done.
    + split; [done|]. right. right. exists lfd.
      split; [done|]. split; [done|]. split; [done|].
      split; [rewrite Htab; table_eq fd lfd|].
      right. by exists u.
  - assert (Hheld : lockedElsewhere w lockFile).
    { apply conflict_true_inv in Hbusy as [Hin|(k & d & Hk & Hkl & Hpath & Hheld)];
        cbn [host fdtable] in *; [by left|].
      rewrite lookup_insert_ne in Hk by done.
      destruct (decide (k = fd)) as [->|Hkf].
      - rewrite lookup_insert_eq in Hk. injection Hk as <-. done.
      - rewrite lookup_insert_ne in Hk by done. right. by exists k, d. }
    rewrite (surjective_pairing (syscall_Close lfd _)).
    rewrite (surjective_pairing (syscall_Close fd _)). intros [= <- <-].
    rewrite !syscall_Close_world. cbn [host files fdtable drawn].
    split; [done|]. right. left. split; [done|]. split; [done|].
    split; [table_eq fd lfd|done].
Qed.

End StoreOutcomes.

Lemma create_if_missing_lookup_ne (p q : string) (fs : gmap string (list byte)) :
  p <> q -> create_if_missing p fs !! q = fs !! q.
Proof.
  intros Hne. unfold create_if_missing. destruct (fs !! p); [done|].
  by rewrite lookup_insert_ne.
Qed.

Section StoreExtras.

Context {UUID : Type}.
Variable uuid_Parse : string -> UUID * option error.
Variable uuid_String : UUID -> string.
Implicit Types (w : World UUID) (lu : lockedUUID UUID).

(** X17: every call of [newUUID] ends in one of three ways.  It returns
    an error, with [lockFd = -1] and the null UUID; or it returns the
    random UUID drawn first, with [lockFd = -1]; in both cases the
    descriptor table is what it was.  Or it returns without error a
    [lockFd] that was not open before, and the table has exactly that one
    descriptor more, open on the lock file with the lock held, the UUID
    being the second random one or the one parsed from the first 36 bytes
    of the UUID file.  The UUID file descriptor is never left open, and
    one or two random UUIDs are drawn. *)
Theorem newUUID_descriptors prefix role w :
  let run := newUUID uuid_Parse uuid_String prefix role w in
  let lu := fst (fst run) in
  let content := default [] (files w !! uuidFilePath prefix role) in
  ((snd (fst run) <> None /\ lockFd lu = -1
    /\ uuid lu = fst (uuid_Parse nullUUID) /\ fdtable (snd run) = fdtable w)
   \/ (snd (fst run) = None /\ lockFd lu = -1
       /\ uuid lu = entropy (host w) (drawn w) /\ fdtable (snd run) = fdtable w)
   \/ (snd (fst run) = None /\ 0 <= lockFd lu /\ fdtable w !! lockFd lu = None
       /\ fdtable (snd run)
          = <[lockFd lu := mkOpenFile (uuidLockFilePath prefix role) 0 true]>
              (fdtable w)
       /\ (uuid lu = entropy (host w) (S (drawn w))
           \/ uuid_Parse (string_of_list_byte (take 36 content)) = (uuid lu, None))))
  /\ (drawn (snd run) = S (drawn w) \/ drawn (snd run) = S (S (drawn w))).
Proof.
  intros run lu content. unfold lu, run.
  destruct (newUUID uuid_Parse uuid_String prefix role w) as [res w'] eqn:Hrun.
  apply newUUID_outcomes in Hrun. cbv zeta in Hrun. fold content in Hrun.
  cbn [fst snd].
  destruct Hrun as (_ & [((e & ->) & _ & Htab & _ & Hdrawn)
                        |[(-> & _ & Htab & _ & Hdrawn)
                         |(lfd & Hpos & Hfresh & _ & Htab
                           & [(-> & _ & _ & Hdrawn)
                             |(u & -> & _ & Hparse & _ & Hdrawn)])]]);
    cbn [fst snd lockFd uuid].
  - split; [by left|lia].
  - split; [right; by left|by left].
  - split; [|by right]. right. right. split_and!; try done. by left.
  - split; [|by left]. right. right. split_and!; try done. by right.
Qed.

(** X18: what [newUUID] does to files.  A file other than the UUID file
    and the lock file is untouched; the lock file is at most created
    empty; the UUID file either reads as before or, when it held fewer
    than 36 bytes and the call succeeded, holds its former bytes followed
    by the text of the returned UUID. *)
Theorem newUUID_files prefix role w :
  let run := newUUID uuid_Parse uuid_String prefix role w in
  let uuidFile := uuidFilePath prefix role in
  let lockFile := uuidLockFilePath prefix role in
  let content := default [] (files w !! uuidFile) in
  (forall q, q <> uuidFile -> q <> lockFile ->
             files (snd run) !! q = files w !! q)
  /\ (forall q, q <> uuidFile ->
                default [] (files (snd run) !! q) = default [] (files w !! q))
  /\ (default [] (files (snd run) !! uuidFile) = content
      \/ ((length content < 36)%nat /\ snd (fst run) = None
          /\ default [] (files (snd run) !! uuidFile)
             = content ++ list_byte_of_string (uuid_String (uuid (fst (fst run)))))).
Proof.
  intros run uuidFile lockFile content. unfold run.
  destruct (newUUID uuid_Parse uuid_String prefix role w) as [res w'] eqn:Hrun.
  apply newUUID_outcomes in Hrun. cbv zeta in Hrun.
  fold uuidFile lockFile in Hrun. fold content in Hrun. cbn [fst snd].
  set (f1 := create_if_missing uuidFile (files w)) in *.
  set (f2 := create_if_missing lockFile f1) in *.
  assert (Hquiet : forall fs, fs = files w \/ fs = f1 \/ fs = f2 ->
            (forall q, q <> uuidFile -> q <> lockFile -> fs !! q = files w !! q)
            /\ (forall q, default [] (fs !! q) = default [] (files w !! q))).
  { intros fs [->|[->| ->]]; (split; [intros q Hq1 Hq2|intros q]); unfold f2, f1;
      rewrite ?create_if_missing_lookup_ne, ?create_if_missing_content by done;
      done. }
  destruct Hrun as (_ & [(_ & _ & _ & Hfiles & _)
                        |[(-> & _ & _ & Hfiles & _)
                         |(lfd & _ & _ & _ & _
                           & [(-> & Hshort & Hfiles & _)
                             |(u & -> & _ & _ & Hfiles & _)])]]).
  - destruct (Hquiet _ Hfiles) as [H1 H2]. split; [done|]. split; [by intros|by left].
  - destruct (Hquiet (files w')) as [H1 H2]; [by right; right|].
    split; [done|]. split; [by intros|by left].
  - destruct (Hquiet f2) as [H1 H2]; [by right; right|]. rewrite Hfiles.
    split; [|split].
    + intros q Hq1 Hq2. rewrite lookup_insert_ne by done. by apply H1.
    + intros q Hq. rewrite lookup_insert_ne by done. apply H2.
    + right. split; [done|]. split; [done|]. by rewrite lookup_insert_eq.
  - destruct (Hquiet (files w')) as [H1 H2]; [by right; right|].
    split; [done|]. split; [by intros|by left].
Qed.


(** X20: the stored identity survives a release.  On a host where no
    call fails and the lock is free, with the UUID file missing or empty,
    a first [newUUID] stores a new UUID; after [freeUUID] a second
    [newUUID] returns the same UUID, again with the lock held, provided
    the text of that UUID has 36 bytes and [uuid.Parse] reads it back. *)
Theorem newUUID_persists prefix role w :
  let uuidFile := uuidFilePath prefix role in
  let lockFile := uuidLockFilePath prefix role in
  let new := entropy (host w) (S (drawn w)) in
  let first := newUUID uuid_Parse uuid_String prefix role w in
  let released := snd (freeUUID (fst (fst first)) (snd first)) in
  let second := newUUID uuid_Parse uuid_String prefix role released in
  mkdir_fault (host w) uuidLockPrefix = None ->
  open_fault (host w) uuidFile = None ->
  open_fault (host w) lockFile = None ->
  read_fault (host w) uuidFile = None ->
  write_fault (host w) uuidFile = None ->
  ~ lockedElsewhere w lockFile ->
  default [] (files w !! uuidFile) = [] ->
  length (list_byte_of_string (uuid_String new)) = 36%nat ->
  uuid_Parse (uuid_String new) = (new, None) ->
  (exists lfd, 0 <= lfd /\ fst first = (mkLockedUUID lfd new, None))
  /\ fst (freeUUID (fst (fst first)) (snd first)) = None
  /\ (exists lfd, 0 <= lfd /\ fst second = (mkLockedUUID lfd new, None)).
Proof.
  intros uuidFile lockFile new first released second
    Hmk Ho1 Ho2 Hread Hwrite Hfree Hempty Hlen Hparse.
  unfold second, released, first.
  destruct (newUUID uuid_Parse uuid_String prefix role w) as [res1 w1] eqn:Hrun1.
  apply newUUID_outcomes in Hrun1. cbv zeta in Hrun1.
  fold uuidFile lockFile new in Hrun1. rewrite Hempty in Hrun1.
  cbn [fst snd].
  destruct Hrun1 as (Hhost1 & [(_ & Hcause & _)
                              |[(_ & Hlocked & _)
                               |(lfd & Hpos & Hfresh & _ & Htab1
                                 & [(-> & _ & Hfiles1 & _)
                                   |(u & _ & Hlong & _)])]]).
  { destruct Hcause as [?|[?|[?|[_ [?|[[_ ?]|[Hlong _]]]]]]]; try done.
    simpl in Hlong. lia. }
  { done. }
  2:{ simpl in Hlong. lia. }
  cbn [fst].
  assert (Hfd1 : fdtable w1 !! lfd = Some (mkOpenFile lockFile 0 true))
    by (rewrite Htab1; apply lookup_insert_eq).
  assert (Hrel : freeUUID (mkLockedUUID lfd new) w1
                 = (None,
                    mkWorld (host w1) (files w1)
                      (<[lfd := mkOpenFile lockFile 0 false]> (fdtable w1))
                      (drawn w1))).
  { unfold freeUUID. cbn [lockFd].
    replace (lfd =? -1) with false by (symmetry; apply Z.eqb_neq; lia).
    by rewrite (syscall_Flock_unlock _ _ _ Hfd1). }
  rewrite Hrel. cbn [fst snd].
  split; [by exists lfd|]. split; [done|].
  set (w2 := mkWorld _ _ _ _).
  destruct (newUUID uuid_Parse uuid_String prefix role w2) as [res2 w3] eqn:Hrun2.
  apply newUUID_outcomes in Hrun2. cbv zeta in Hrun2.
  fold uuidFile lockFile in Hrun2.
  assert (Hcontent2 : default [] (files w2 !! uuidFile)
                      = list_byte_of_string (uuid_String new)).
  { unfold w2. cbn [files]. rewrite Hfiles1. by rewrite lookup_insert_eq. }
  rewrite Hcontent2 in Hrun2.
  rewrite take_ge, string_of_list_byte_of_string, Hparse in Hrun2 by lia.
  assert (Hfree2 : ~ lockedElsewhere w2 lockFile).
  { intros [Hin|(k & d & Hk & Hpath & Hheld)].
    - apply Hfree. left. unfold w2 in Hin. cbn [host] in Hin. by rewrite Hhost1 in Hin.
    - unfold w2 in Hk. cbn [fdtable] in Hk. rewrite Htab1, insert_insert_eq in Hk.
      destruct (decide (k = lfd)) as [->|Hkl].
      + rewrite lookup_insert_eq in Hk. injection Hk as <-. done.
      + rewrite lookup_insert_ne in Hk by done. apply Hfree. right. by exists k, d. }
  assert (Hhost2 : host w2 = host w) by done.
  rewrite Hhost2 in Hrun2. cbn [fst snd] in Hrun2.
  destruct Hrun2 as (_ & [(_ & Hcause & _)
                         |[(_ & Hlocked & _)
                          |(lfd2 & Hpos2 & _ & _ & _
                            & [(_ & Hshort & _)
                              |(u & -> & _ & Hu & _)])]]).
  - destruct Hcause as [?|[?|[?|[_ [?|[[? _]|[_ ?]]]]]]]; try done. lia.
  - done.
  - lia.
  - injection Hu as <-. by exists lfd2.
Qed.

(** X21: [freeUUID] never closes a descriptor and never touches a file:
    the same descriptors are open afterwards, only the entry of [lockFd]
    can differ, and a second [freeUUID] on the same value changes
    nothing more. *)
Theorem freeUUID_keeps_descriptor lu w :
  let w' := snd (freeUUID lu w) in
  dom (fdtable w') = dom (fdtable w)
  /\ (forall k, k <> lockFd lu -> fdtable w' !! k = fdtable w !! k)
  /\ files w' = files w /\ host w' = host w /\ drawn w' = drawn w
  /\ freeUUID lu w' = (fst (freeUUID lu w), w').
Proof.
  unfold freeUUID. destruct (Z.eqb_spec (lockFd lu) (-1)) as [Heq|Hne].
  { cbn [fst snd]. by split_and!. }
  destruct (fdtable w !! lockFd lu) as [d|] eqn:Hfd.
  - rewrite (syscall_Flock_unlock _ _ _ Hfd). cbn [fst snd fdtable files host drawn].
    split_and!; try done.
    + rewrite dom_insert_L. apply subseteq_union_1_L, singleton_subseteq_l.
      by apply elem_of_dom.
    + intros k Hk. by rewrite lookup_insert_ne.
    + erewrite syscall_Flock_unlock by (cbn [fdtable]; apply lookup_insert_eq).
      cbn [host files fdtable drawn of_path of_offset]. by rewrite insert_insert_eq.
  - unfold syscall_Flock. rewrite Hfd. cbn [fst snd]. rewrite Hfd. by split_and!.
Qed.

End StoreExtras.

(** ** The paths of a role *)






(** A first start on an empty host, a release, and a second start. *)
Lemma newUUID_persists_witness :
  let first := HexUUID.acquire "scheduler" SCHEDULER (HexUUID.boot ∅ ∅) in
  let released := snd (freeUUID (fst (fst first)) (snd first)) in
  exists lfd,
    0 <= lfd
    /\ fst (HexUUID.acquire "scheduler" SCHEDULER released)
       = (mkLockedUUID lfd (replicate 16 x02), None).
Proof.
  intros first released.
  destruct (newUUID_persists HexUUID.Parse HexUUID.String_ "scheduler" SCHEDULER
              (HexUUID.boot ∅ ∅)) as (_ & _ & Hsecond);
    [reflexivity | reflexivity | reflexivity | reflexivity | reflexivity
    | | vm_compute; reflexivity | vm_compute; reflexivity | vm_compute; reflexivity |].
  - intros [Hin|(k & d & Hk & _)].
    + by apply not_elem_of_empty in Hin.
    + unfold HexUUID.boot in Hk. cbn [fdtable] in Hk. by rewrite lookup_empty in Hk.
  - exact Hsecond.
Defined.
